(** * chat2: the room membership and fan-out engine of [server.js]

    A shallow embedding of the WebSocket relay: the decoded messages, the
    room directory [rooms], the typing tracker [typingUsers], the per
    connection fields [ws.username] and [ws.rooms], the helper functions,
    the six message handlers and the three listeners.  The functions keep
    the names they have in [server.js].

    The code runs in a monad that threads the state of the process,
    collects what is handed to the transport and propagates an exception.
    [rooms] is a [Map] and is modelled by a finite map; [typingUsers] and
    [messageHandlers] are object literals, so a lookup in them also finds
    the members of [Object.prototype], which the model keeps apart from
    the own properties.  A [Set] is the list of its elements in insertion
    order.  [JSON.parse] and [Date.now] belong to the environment: a frame
    arrives with the outcome of its decoding and with the clock reading. *)

From Stdlib Require Import ZArith DecimalString.
From stdpp Require Import base gmap strings list fin_maps.

#[local] Set Warnings "-register-all".
#[local] Set Warnings "-automation".

(** ** Decoded JSON values

    What [JSON.parse] returns.  Numbers are the integer-valued ones (the
    server only tests a number for truthiness, prints it and copies it);
    a string is its sequence of code units below 256; an object is the
    list of its own properties.  [None] in an [option json] is the
    JavaScript [undefined] that a property read yields when the property
    is absent. *)

Inductive json : Type :=
| JNull
| JBool (b : bool)
| JNum (n : Z)
| JStr (s : string)
| JArr (items : list json)
| JObj (props : list (string * json)).

Module JS.

(** [ToBoolean]: [null], [false], [0] and the empty string are falsy. *)
Definition truthy (v : json) : bool :=
  match v with
  | JNull => false
  | JBool b => b
  | JNum n => negb (n =? 0)%Z
  | JStr s => negb (String.eqb s "")
  | JArr _ => true
  | JObj _ => true
  end.

(** [ToBoolean] of the result of a property read. *)
Definition truthy_opt (o : option json) : bool :=
  match o with
  | Some v => truthy v
  | None => false
  end.

(** [a || b] on values. *)
Definition or_else (o : option json) (d : json) : json :=
  match o with
  | Some v => if truthy v then v else d
  | None => d
  end.

Definition number_to_string (n : Z) : string :=
  NilZero.string_of_int (Z.to_int n).

(** [ToString], as a template literal and a property key apply it: an
    array joins its elements with a comma, [null] elements printing as
    the empty string; every plain object prints as [[object Object]]. *)
Fixpoint ToString (v : json) : string :=
  match v with
  | JNull => "null"
  | JBool true => "true"
  | JBool false => "false"
  | JNum n => number_to_string n
  | JStr s => s
  | JArr items =>
      (fix join (l : list json) : string :=
         match l with
         | [] => ""
         | x :: rest =>
             let e := match x with JNull => "" | _ => ToString x end in
             match rest with
             | [] => e
             | _ :: _ => e +:+ "," +:+ join rest
             end
         end) items
  | JObj _ => "[object Object]"
  end.

Definition ToString_opt (o : option json) : string :=
  match o with
  | Some v => ToString v
  | None => "undefined"
  end.

(** [data[f]] for the property names the server reads ([type], [room],
    [sender], [content], [target], [emoji], [timestamp], [reply],
    [typing]): none of them is defined on a string, a number, a boolean,
    an array or on [Object.prototype], so the read finds an own
    property of an object or nothing. *)
Fixpoint own_property (props : list (string * json)) (f : string) : option json :=
  match props with
  | [] => None
  | (k, v) :: rest => if String.eqb k f then Some v else own_property rest f
  end.

Definition get (data : json) (f : string) : option json :=
  match data with
  | JObj props => own_property props f
  | _ => None
  end.

(** The string a property holds, once [typeof data[f] === 'string'] has
    been checked. *)
Definition str (o : option json) : string :=
  match o with
  | Some (JStr s) => s
  | _ => ""
  end.

(** White space and line terminators that [String.prototype.trim]
    strips, among the code units below 256. *)
Definition is_white_space (c : Ascii.ascii) : bool :=
  let n := N.to_nat (Ascii.N_of_ascii c) in
  existsb (Nat.eqb n) [9; 10; 11; 12; 13; 32; 160]%nat.

(** [s.trim()] is the empty string. *)
Fixpoint trims_to_empty (s : string) : bool :=
  match s with
  | EmptyString => true
  | String c rest => is_white_space c && trims_to_empty rest
  end.

(** [Array.prototype.join]. *)
Fixpoint join (sep : string) (l : list string) : string :=
  match l with
  | [] => ""
  | [x] => x
  | x :: rest => x +:+ sep +:+ join sep rest
  end.

(** The names that every plain object inherits from [Object.prototype]. *)
Definition Object_prototype : list string :=
  [ "constructor"; "__defineGetter__"; "__defineSetter__";
    "hasOwnProperty"; "__lookupGetter__"; "__lookupSetter__";
    "isPrototypeOf"; "propertyIsEnumerable"; "toString"; "valueOf";
    "__proto__"; "toLocaleString" ].

Definition inherited (k : string) : bool :=
  existsb (String.eqb k) Object_prototype.

(** A [Set] iterates in insertion order and holds no duplicates. *)
Section SetOps.
Context {A : Type} `{EqDecision A}.

Definition Set_has (x : A) (s : list A) : bool := bool_decide (x ∈ s).

Definition Set_add (x : A) (s : list A) : list A :=
  if Set_has x s then s else s ++ [x].

Definition Set_delete (x : A) (s : list A) : list A :=
  filter (λ y, y ≠ x) s.
End SetOps.

End JS.

(** ** Outbound events

    The object literals the server hands to [JSON.stringify], one
    constructor per [type]. *)

Module Event.
Inductive payload : Type :=
| error (message : string)
| system (content : string)
| user_joined (room : string) (sender : option string)
| user_left (room : string) (sender : option string)
| presence (room : string) (users : list string)
| typing (room : string) (typingUsers : list string)
| message (room : string) (sender : option string) (content : string)
  (timestamp : json) (reply : json)
| reaction (room : string) (sender : option string) (target emoji : string)
  (timestamp : json).
End Event.

(** ** The state of the process *)

(** A connection is known by the identity of its [ws] object. *)
Definition conn : Type := nat.

(** The fields of a [ws] object that the server reads and writes:
    [readyState === WebSocket.OPEN], [username] ([None] is [null]) and the
    [Set] [rooms]. *)
Record WebSocket : Type := {
  readyState_OPEN : bool;
  username : option string;
  ws_rooms : list string
}.

(** [rooms] is the [Map] from room name to the [Set] of member sockets,
    [typingUsers] holds the own properties of the object literal of that
    name, [sockets] is the store of [ws] objects, shared by reference
    between the listeners and the member sets. *)
Record world : Type := {
  rooms : gmap string (list conn);
  typingUsers : gmap string (list string);
  sockets : gmap conn WebSocket
}.

Definition initial : world :=
  {| rooms := ∅; typingUsers := ∅; sockets := ∅ |}.

Definition with_rooms (f : gmap string (list conn) → gmap string (list conn))
    (w : world) : world :=
  {| rooms := f (rooms w); typingUsers := typingUsers w; sockets := sockets w |}.

Definition with_typingUsers
    (f : gmap string (list string) → gmap string (list string))
    (w : world) : world :=
  {| rooms := rooms w; typingUsers := f (typingUsers w); sockets := sockets w |}.

Definition with_sockets (f : gmap conn WebSocket → gmap conn WebSocket)
    (w : world) : world :=
  {| rooms := rooms w; typingUsers := typingUsers w; sockets := f (sockets w) |}.

(** The fields of a socket that was never set up read as a closed,
    anonymous socket in no room. *)
Definition socket (w : world) (ws : conn) : WebSocket :=
  default {| readyState_OPEN := false; username := None; ws_rooms := [] |}
          (sockets w !! ws).

Definition set_username (u : option string) (s : WebSocket) : WebSocket :=
  {| readyState_OPEN := readyState_OPEN s; username := u; ws_rooms := ws_rooms s |}.

Definition set_ws_rooms (f : list string → list string) (s : WebSocket) : WebSocket :=
  {| readyState_OPEN := readyState_OPEN s; username := username s;
     ws_rooms := f (ws_rooms s) |}.

Definition set_readyState_OPEN (b : bool) (s : WebSocket) : WebSocket :=
  {| readyState_OPEN := b; username := username s; ws_rooms := ws_rooms s |}.

(** The members of a room: the [Set] the directory holds for it, nothing
    when the directory has no entry. *)
Definition members (w : world) (room : string) : list conn :=
  default [] (rooms w !! room).

(** ** Effects: state, deliveries and exceptions *)

(** One [ws.send] that reached the transport. *)
Definition delivery : Type := conn * Event.payload.

Inductive exn : Type := TypeError.

Inductive completion (A : Type) : Type :=
| Normal (a : A)
| Throw (e : exn).
Arguments Normal {A} a.
Arguments Throw {A} e.

Record outcome (A : Type) : Type := Outcome {
  result : completion A;
  final : world;
  sent : list delivery
}.
Arguments Outcome {A} _ _ _.
Arguments result {A} _.
Arguments final {A} _.
Arguments sent {A} _.

Definition M (A : Type) : Type := world → outcome A.

#[global] Instance M_ret : MRet M := λ A a w, Outcome (Normal a) w [].

#[global] Instance M_bind : MBind M := λ A B f m w,
  let r := m w in
  match result r with
  | Normal a =>
      let r' := f a (final r) in
      Outcome (result r') (final r') (sent r ++ sent r')
  | Throw e => Outcome (Throw e) (final r) (sent r)
  end.

Definition get_world : M world := λ w, Outcome (Normal w) w [].
Definition modify (f : world → world) : M unit := λ w, Outcome (Normal ()) (f w) [].
Definition emit (d : delivery) : M unit := λ w, Outcome (Normal ()) w [d].
Definition throw {A : Type} (e : exn) : M A := λ w, Outcome (Throw e) w [].

(** [for (const x of xs) body(x)]; an exception leaves the loop. *)
Fixpoint for_each {A : Type} (xs : list A) (body : A → M unit) : M unit :=
  match xs with
  | [] => mret ()
  | x :: rest => body x;; for_each rest body
  end.

(** ** Helper functions *)

(** The outcome of [JSON.parse] on an inbound frame. *)
Inductive frame : Type :=
| Parsed (v : json)
| SyntaxError.

Definition parseJSON (msg : frame) : json :=
  match msg with
  | Parsed v => v
  | SyntaxError => JNull
  end.

Definition send (ws : conn) (data : Event.payload) : M unit :=
  w ← get_world;
  if readyState_OPEN (socket w ws) then emit (ws, data) else mret ().

(** [typeof data[f] !== 'string' || !data[f].trim()] *)
Definition missing_field (data : json) (f : string) : bool :=
  match JS.get data f with
  | Some (JStr s) => JS.trims_to_empty s
  | _ => true
  end.

Definition requireFields (ws : conn) (data : json) (fields : list string) : M bool :=
  let missing := List.filter (missing_field data) fields in
  if negb (length missing =? 0)%nat then
    send ws (Event.error ("Missing or invalid fields: " +:+ JS.join ", " missing));;
    mret false
  else mret true.

(** The body of the loop of [broadcastToRoom]. *)
Definition deliver (data : Event.payload) (excludeWs : option conn) (client : conn) : M unit :=
  w ← get_world;
  if readyState_OPEN (socket w client) && negb (bool_decide (excludeWs = Some client))
  then emit (client, data)
  else mret ().

Definition broadcastToRoom (room : string) (data : Event.payload)
    (excludeWs : option conn) : M unit :=
  w ← get_world;
  match rooms w !! room with
  | None => mret ()
  | Some clients => for_each clients (deliver data excludeWs)
  end.

(** [.filter(Boolean)] on the user names of the members. *)
Definition named (u : option string) : option string :=
  match u with
  | Some s => if String.eqb s "" then None else Some s
  | None => None
  end.

Definition broadcastPresence (room : string) : M unit :=
  w ← get_world;
  match rooms w !! room with
  | None => mret ()
  | Some clients =>
      let users := omap (λ c, named (username (socket w c))) clients in
      broadcastToRoom room (Event.presence room users) None
  end.

(** ** Room logic *)

Definition joinRoom (ws : conn) (room : string) : M unit :=
  w ← get_world;
  (if bool_decide (rooms w !! room = None)
   then modify (with_rooms <[room := []]>) else mret ());;
  modify (with_rooms (alter (JS.Set_add ws) room));;
  modify (with_sockets (alter (set_ws_rooms (JS.Set_add room)) ws));;
  w ← get_world;
  broadcastToRoom room (Event.user_joined room (username (socket w ws))) (Some ws);;
  send ws (Event.system ("Joined room: " +:+ room));;
  broadcastPresence room.

(** What [typingUsers[room]] evaluates to: the [Set] stored under an own
    property, a member inherited from [Object.prototype] (a function or
    the prototype object: truthy, and without [add] or [delete]), or
    [undefined]. *)
Inductive typing_slot : Type :=
| OwnSet (s : list string)
| Inherited
| Undefined.

Definition typingUsers_get (w : world) (room : string) : typing_slot :=
  match typingUsers w !! room with
  | Some s => OwnSet s
  | None => if JS.inherited room then Inherited else Undefined
  end.

(** [set.delete(ws.username)]: the sets hold strings only, so deleting
    [null] removes nothing. *)
Definition delete_user (u : option string) (s : list string) : list string :=
  match u with
  | Some name => JS.Set_delete name s
  | None => s
  end.

Definition leaveRoom (ws : conn) (room : string) : M unit :=
  w ← get_world;
  (if bool_decide (is_Some (rooms w !! room)) then
     modify (with_rooms (alter (JS.Set_delete ws) room));;
     w ← get_world;
     if (length (members w room) =? 0)%nat
     then modify (with_rooms (delete room)) else mret ()
   else mret ());;
  modify (with_sockets (alter (set_ws_rooms (JS.Set_delete room)) ws));;
  (* Remove from typing list *)
  w ← get_world;
  match typingUsers_get w room with
  | Undefined => mret ()
  | Inherited => throw TypeError
  | OwnSet s =>
      let s' := delete_user (username (socket w ws)) s in
      modify (with_typingUsers <[room := s']>);;
      if (length s' =? 0)%nat
      then modify (with_typingUsers (delete room))
      else broadcastToRoom room (Event.typing room s') None
  end;;
  w ← get_world;
  broadcastToRoom room (Event.user_left room (username (socket w ws))) (Some ws);;
  send ws (Event.system ("Left room: " +:+ room));;
  broadcastPresence room.

(** ** Message handlers

    A handler receives the socket, the decoded message and the reading of
    [Date.now()] at the time the frame is processed. *)

Definition handler : Type := conn → json → Z → M unit.

Module messageHandlers.

Definition join (ws : conn) (data : json) (now : Z) : M unit :=
  ok ← requireFields ws data ["room"; "sender"];
  if (ok : bool) then
    modify (with_sockets (alter (set_username (Some (JS.str (JS.get data "sender")))) ws));;
    joinRoom ws (JS.str (JS.get data "room"))
  else mret ().

Definition leave (ws : conn) (data : json) (now : Z) : M unit :=
  ok ← requireFields ws data ["room"];
  if (ok : bool) then leaveRoom ws (JS.str (JS.get data "room")) else mret ().

Definition message (ws : conn) (data : json) (now : Z) : M unit :=
  ok ← requireFields ws data ["room"; "content"];
  w ← get_world;
  let room := JS.str (JS.get data "room") in
  if ok && JS.Set_has room (ws_rooms (socket w ws)) then
    broadcastToRoom room
      (Event.message room (username (socket w ws))
         (JS.str (JS.get data "content"))
         (JS.or_else (JS.get data "timestamp") (JNum now))
         (JS.or_else (JS.get data "reply") JNull))
      None
  else mret ().

Definition reaction (ws : conn) (data : json) (now : Z) : M unit :=
  ok ← requireFields ws data ["room"; "target"; "emoji"];
  w ← get_world;
  let room := JS.str (JS.get data "room") in
  if ok && JS.Set_has room (ws_rooms (socket w ws)) then
    broadcastToRoom room
      (Event.reaction room (username (socket w ws))
         (JS.str (JS.get data "target"))
         (JS.str (JS.get data "emoji"))
         (JS.or_else (JS.get data "timestamp") (JNum now)))
      None
  else mret ().

Definition presence_request (ws : conn) (data : json) (now : Z) : M unit :=
  ok ← requireFields ws data ["room"];
  w ← get_world;
  let room := JS.str (JS.get data "room") in
  if ok && JS.Set_has room (ws_rooms (socket w ws))
  then broadcastPresence room
  else mret ().

Definition typing (ws : conn) (data : json) (now : Z) : M unit :=
  ok ← requireFields ws data ["room"];
  if negb ok then mret () else
  w ← get_world;
  let room := JS.str (JS.get data "room") in
  let user := username (socket w ws) in
  match named user with
  | None => mret ()
  | Some name =>
      if negb (JS.Set_has room (ws_rooms (socket w ws))) then mret () else
      (match typingUsers_get w room with
       | Undefined => modify (with_typingUsers <[room := []]>)
       | _ => mret ()
       end);;
      w ← get_world;
      match typingUsers_get w room with
      | OwnSet s =>
          modify (with_typingUsers
                    <[room := if JS.truthy_opt (JS.get data "typing")
                              then JS.Set_add name s
                              else JS.Set_delete name s]>)
      | _ => throw TypeError
      end;;
      w ← get_world;
      broadcastToRoom room
        (Event.typing room (default [] (typingUsers w !! room))) None
  end.

(** The own properties of the object literal [messageHandlers]. *)
Definition own (key : string) : option handler :=
  if String.eqb key "join" then Some join
  else if String.eqb key "leave" then Some leave
  else if String.eqb key "message" then Some message
  else if String.eqb key "reaction" then Some reaction
  else if String.eqb key "presence_request" then Some presence_request
  else if String.eqb key "typing" then Some typing
  else None.

(** [handler(ws, data)] when [handler] is a member inherited from
    [Object.prototype], called with [this] undefined: the [Object]
    constructor returns its first argument and [toString] returns
    ["[object Undefined]"]; the other functions reject an undefined
    [this], and [__proto__] yields the prototype object, which cannot
    be called. *)
Definition call_inherited (key : string) : M unit :=
  if String.eqb key "constructor" || String.eqb key "toString"
  then mret ()
  else throw TypeError.

End messageHandlers.

(** ** Listeners *)

(** [wss.on('connection')]: the two fields are set up on the new socket. *)
Definition on_connection (ws : conn) : M unit :=
  modify (with_sockets
            <[ws := {| readyState_OPEN := true; username := None; ws_rooms := [] |}]>).

(** [ws.on('message')] *)
Definition on_message (ws : conn) (msg : frame) (now : Z) : M unit :=
  let data := parseJSON msg in
  if negb (JS.truthy data) then send ws (Event.error "Invalid JSON") else
  let key := JS.ToString_opt (JS.get data "type") in
  match messageHandlers.own key with
  | Some handler => handler ws data now
  | None =>
      if JS.inherited key then messageHandlers.call_inherited key
      else send ws (Event.error ("Unknown message type: " +:+ JS.ToString_opt (JS.get data "type")))
  end.

(** [ws.on('close')]: the loop visits the rooms of the socket in insertion
    order; [leaveRoom] removes from [ws.rooms] only the room it is called
    with, which the iterator has already passed. *)
Definition on_close (ws : conn) : M unit :=
  w ← get_world;
  for_each (ws_rooms (socket w ws)) (λ room, leaveRoom ws room).

(** ** The server as a transition system *)

(** What the transport can do: accept a new socket, deliver a frame (with
    the clock reading at that time), start closing a socket (its
    [readyState] leaves [OPEN]), and report a socket closed. *)
Inductive input : Type :=
| Connection (ws : conn)
| Incoming (ws : conn) (msg : frame) (now : Z)
| Closing (ws : conn)
| Closed (ws : conn).

Definition step (i : input) : M unit :=
  w ← get_world;
  match i with
  | Connection ws =>
      if bool_decide (sockets w !! ws = None) then on_connection ws else mret ()
  | Incoming ws msg now =>
      if bool_decide (is_Some (sockets w !! ws)) then on_message ws msg now else mret ()
  | Closing ws =>
      modify (with_sockets (alter (set_readyState_OPEN false) ws))
  | Closed ws =>
      if bool_decide (is_Some (sockets w !! ws)) then
        modify (with_sockets (alter (set_readyState_OPEN false) ws));;
        on_close ws
      else mret ()
  end.

(** The state after a sequence of inputs.  A listener that throws leaves
    the state as it was at the throw; the run goes on from there, which
    covers a process that survives the exception as well as one that
    stops at it. *)
Definition run (w : world) (inputs : list input) : world :=
  fold_left (λ w i, final (step i w)) inputs w.

Definition reachable (w : world) : Prop := ∃ inputs, w = run initial inputs.

(** ** Derived views of the state *)

(** The sockets a broadcast reaches: the open members of the room, in the
    insertion order of the member set, the excluded socket left out. *)
Definition audience (w : world) (room : string) (excludeWs : option conn) : list conn :=
  List.filter
    (λ c, readyState_OPEN (socket w c) && negb (bool_decide (excludeWs = Some c)))
    (members w room).

(** The deliveries of one [broadcastToRoom]. *)
Definition fanout (w : world) (room : string) (data : Event.payload)
    (excludeWs : option conn) : list delivery :=
  map (λ c, (c, data)) (audience w room excludeWs).

(** The deliveries of one [send]: none when the socket is not open. *)
Definition reply_to (w : world) (ws : conn) (data : Event.payload) : list delivery :=
  if readyState_OPEN (socket w ws) then [(ws, data)] else [].

(** The presence list of a room: the non-empty user names of its members. *)
Definition snapshot (w : world) (room : string) : list string :=
  omap (λ c, named (username (socket w c))) (members w room).

(** The deliveries of one [broadcastPresence]. *)
Definition presence_out (w : world) (room : string) : list delivery :=
  if bool_decide (is_Some (rooms w !! room))
  then fanout w room (Event.presence room (snapshot w room)) None
  else [].

(** An outcome with earlier deliveries put in front. *)
Definition prepend {A : Type} (o : list delivery) (r : outcome A) : outcome A :=
  Outcome (result r) (final r) (o ++ sent r).

(** The state after [joinRoom]; the state after the first part of
    [leaveRoom], which updates the directory and then [ws.rooms]; the state
    and the deliveries of its second part, which updates the typing set. *)

Definition join_world (ws : conn) (room : string) (w : world) : world :=
  with_sockets (alter (set_ws_rooms (JS.Set_add room)) ws)
    (with_rooms (alter (JS.Set_add ws) room)
       (if bool_decide (rooms w !! room = None) then with_rooms <[room := []]> w else w)).

Definition leave_directory (ws : conn) (room : string) (w : world) : world :=
  if bool_decide (is_Some (rooms w !! room)) then
    let w1 := with_rooms (alter (JS.Set_delete ws) room) w in
    if (length (members w1 room) =? 0)%nat then with_rooms (delete room) w1 else w1
  else w.

Definition leave_membership (ws : conn) (room : string) (w : world) : world :=
  with_sockets (alter (set_ws_rooms (JS.Set_delete room)) ws)
    (leave_directory ws room w).

Definition leave_typing (ws : conn) (room : string) (w : world) : world :=
  match typingUsers_get w room with
  | OwnSet s =>
      let s' := delete_user (username (socket w ws)) s in
      if (length s' =? 0)%nat
      then with_typingUsers (delete room) (with_typingUsers <[room := s']> w)
      else with_typingUsers <[room := s']> w
  | _ => w
  end.

Definition leave_typing_out (ws : conn) (room : string) (w : world) : list delivery :=
  match typingUsers_get w room with
  | OwnSet s =>
      let s' := delete_user (username (socket w ws)) s in
      if (length s' =? 0)%nat then []
      else fanout w room (Event.typing room s') None
  | _ => []
  end.

(** ** Invariants, and what the statements talk about *)

(** The directory holds no empty member set. *)
Definition directory_ok (w : world) : Prop :=
  ∀ room s, rooms w !! room = Some s → s ≠ [].

(** The member sets and the [ws.rooms] records say the same. *)
Definition membership_ok (w : world) : Prop :=
  ∀ ws room, ws ∈ members w room ↔ room ∈ ws_rooms (socket w ws).

(** Two states with the same directory and the same sockets. *)
Definition same_membership (w w' : world) : Prop :=
  rooms w' = rooms w ∧ sockets w' = sockets w.

(** The list [missing] that [requireFields] computes, and whether it is
    empty. *)
Definition missing (data : json) (fields : list string) : list string :=
  List.filter (missing_field data) fields.

Definition complete (data : json) (fields : list string) : bool :=
  (length (missing data fields) =? 0)%nat.

(** The deliveries of [requireFields] when a field is missing. *)
Definition complaint (w : world) (ws : conn) (data : json) (fields : list string) :
    list delivery :=
  reply_to w ws
    (Event.error ("Missing or invalid fields: " +:+ JS.join ", " (missing data fields))).

Definition Inv (w : world) : Prop := directory_ok w ∧ membership_ok w.

(** The fields each handler hands to [requireFields]. *)
Definition required_fields (key : string) : option (list string) :=
  if String.eqb key "join" then Some ["room"; "sender"]
  else if String.eqb key "leave" then Some ["room"]
  else if String.eqb key "message" then Some ["room"; "content"]
  else if String.eqb key "reaction" then Some ["room"; "target"; "emoji"]
  else if String.eqb key "presence_request" then Some ["room"]
  else if String.eqb key "typing" then Some ["room"]
  else None.

(** A computation hands the transport only payloads that satisfy [P]. *)
Definition emits_only {A} (P : Event.payload → Prop) (m : M A) : Prop :=
  ∀ w d, d ∈ sent (m w) → P d.2.

(** No payload but the reply to an undecodable frame is [error "Invalid JSON"]. *)
Definition not_invalid_json (p : Event.payload) : Prop := p ≠ Event.error "Invalid JSON".

(** ** Frames and runs used in the scenarios *)

Module Scenario.
Definition join (room sender : string) : frame :=
  Parsed (JObj [("type", JStr "join"); ("room", JStr room); ("sender", JStr sender)]).

Definition leave (room : string) : frame :=
  Parsed (JObj [("type", JStr "leave"); ("room", JStr room)]).

Definition typing (room : string) (on : bool) : frame :=
  Parsed (JObj [("type", JStr "typing"); ("room", JStr room); ("typing", JBool on)]).

Definition message (room content : string) (timestamp : json) : frame :=
  Parsed (JObj [("type", JStr "message"); ("room", JStr room);
                ("content", JStr content); ("timestamp", timestamp)]).

(** Socket 1 joins "general" as alice, starts typing there, then joins
    "lobby" as bob. *)
Definition renamed_while_typing : list input :=
  [Connection 1;
   Incoming 1 (join "general" "alice") 0;
   Incoming 1 (typing "general" true) 0;
   Incoming 1 (join "lobby" "bob") 0].

(** Socket 1 is alice, typing in "general"; socket 2 is another alice, in
    "lobby" only. *)
Definition namesake_outside : list input :=
  [Connection 1; Connection 2;
   Incoming 1 (join "general" "alice") 0;
   Incoming 1 (typing "general" true) 0;
   Incoming 2 (join "lobby" "alice") 0].

(** Two sockets in a room called "constructor". *)
Definition two_in_constructor : list input :=
  [Connection 1; Connection 2;
   Incoming 1 (join "constructor" "alice") 0;
   Incoming 2 (join "constructor" "bob") 0].
End Scenario.

(** ** More views of the state *)

(** The socket object that [wss.on('connection')] sets up. *)
Definition fresh_socket : WebSocket :=
  {| readyState_OPEN := true; username := None; ws_rooms := [] |}.

(** The state after the [typing] handler has updated the set of a room:
    the name is added to, or deleted from, the set stored for the room, an
    absent set counting as empty. *)
Definition typing_update (room name : string) (on : bool) (w : world) : world :=
  with_typingUsers
    <[room := if on
              then JS.Set_add name (default [] (typingUsers w !! room))
              else JS.Set_delete name (default [] (typingUsers w !! room))]> w.

(** The state after the [join] handler has accepted a message. *)
Definition join_handled (ws : conn) (room name : string) (w : world) : world :=
  join_world ws room (with_sockets (alter (set_username (Some name)) ws) w).

(** The lists that stand for a [Set] hold no element twice. *)
Definition sets_ok (w : world) : Prop :=
  (∀ room, NoDup (members w room))
  ∧ (∀ c, NoDup (ws_rooms (socket w c)))
  ∧ (∀ room s, typingUsers w !! room = Some s → NoDup s).

(** A user name is never blank, a socket without a name is in no room,
    and the typing sets hold no blank name. *)
Definition names_ok (w : world) : Prop :=
  (∀ c, match username (socket w c) with
        | Some s => JS.trims_to_empty s = false
        | None => ws_rooms (socket w c) = []
        end)
  ∧ (∀ room s name,
       typingUsers w !! room = Some s → name ∈ s → JS.trims_to_empty name = false).

(** A computation leaves every [readyState] as it is and hands the
    transport nothing for a socket that is not open. *)
Definition respects_readyState {A} (m : M A) : Prop :=
  ∀ w,
    (∀ c, readyState_OPEN (socket (final (m w)) c) = readyState_OPEN (socket w c))
    ∧ (∀ d, d ∈ sent (m w) → readyState_OPEN (socket w d.1) = true).

(** No typing set is stored under a name that [Object.prototype] defines. *)
Definition typing_keys_ok (w : world) : Prop :=
  ∀ room, JS.inherited room = true → typingUsers w !! room = None.

(** * Proofs *)

Section Monad_laws.
Context {A B : Type}.
Implicit Types (m : M A) (f : A → M B) (w : world).

Lemma bind_Normal m f w a w' o :
  m w = Outcome (Normal a) w' o → (m ≫= f) w = prepend o (f a w').
Proof. intros H. unfold mbind, M_bind. rewrite H. reflexivity. Qed.

Lemma bind_ret (a : A) f w : (mret a ≫= f) w = f a w.
Proof. unfold mbind, M_bind, mret, M_ret. cbn. by destruct (f a w). Qed.

Lemma prepend_nil (r : outcome A) : prepend [] r = r.
Proof. by destruct r. Qed.

End Monad_laws.

Lemma bind_get {B} (f : world → M B) w : (get_world ≫= f) w = f w w.
Proof. unfold mbind, M_bind, get_world. cbn. by destruct (f w w). Qed.

Lemma bind_modify {B} (g : world → world) (f : unit → M B) w :
  (modify g ≫= f) w = f () (g w).
Proof. unfold mbind, M_bind, modify. cbn. by destruct (f () (g w)). Qed.

Lemma bind_throw {A B} e (f : A → M B) w : (throw e ≫= f) w = Outcome (Throw e) w [].
Proof. reflexivity. Qed.

Lemma bind_assoc {A B C} (m : M A) (f : A → M B) (g : B → M C) w :
  ((m ≫= f) ≫= g) w = (m ≫= (λ a, f a ≫= g)) w.
Proof.
  unfold mbind, M_bind. destruct (m w) as [[a|e] w1 o1]; cbn; [|done].
  destruct (f a w1) as [[b|e] w2 o2]; cbn; [|done].
  by rewrite app_assoc.
Qed.

Lemma send_eq ws data w : send ws data w = Outcome (Normal ()) w (reply_to w ws data).
Proof.
  unfold send, reply_to. rewrite bind_get.
  by destruct (readyState_OPEN (socket w ws)).
Qed.

Lemma deliver_eq data ex c w :
  deliver data ex c w =
  Outcome (Normal ()) w
    (if readyState_OPEN (socket w c) && negb (bool_decide (ex = Some c))
     then [(c, data)] else []).
Proof. unfold deliver. rewrite bind_get. by destruct (_ && _). Qed.

Lemma for_each_deliver data ex (cs : list conn) w :
  for_each cs (deliver data ex) w =
  Outcome (Normal ()) w
    (map (λ c, (c, data))
       (List.filter
          (λ c, readyState_OPEN (socket w c) && negb (bool_decide (ex = Some c))) cs)).
Proof.
  induction cs as [|c cs IH]; [done|].
  cbn [for_each List.filter].
  rewrite (bind_Normal _ _ _ _ _ _ (deliver_eq data ex c w)), IH.
  unfold prepend. cbn [result final sent].
  by destruct (_ && _).
Qed.

Lemma broadcastToRoom_eq room data ex w :
  broadcastToRoom room data ex w = Outcome (Normal ()) w (fanout w room data ex).
Proof.
  unfold broadcastToRoom, fanout, audience, members. rewrite bind_get.
  destruct (rooms w !! room) as [cs|]; cbn; [|done].
  apply for_each_deliver.
Qed.

Lemma broadcastPresence_eq room w :
  broadcastPresence room w = Outcome (Normal ()) w (presence_out w room).
Proof.
  unfold broadcastPresence, presence_out, snapshot, members. rewrite bind_get.
  destruct (rooms w !! room) as [cs|] eqn:E; cbn; [|done].
  rewrite broadcastToRoom_eq. unfold fanout, audience, members. by rewrite E.
Qed.

Lemma bind_send {B} ws data (f : unit → M B) w :
  (send ws data ≫= f) w = prepend (reply_to w ws data) (f () w).
Proof. apply bind_Normal, send_eq. Qed.

Lemma bind_broadcastToRoom {B} room data ex (f : unit → M B) w :
  (broadcastToRoom room data ex ≫= f) w = prepend (fanout w room data ex) (f () w).
Proof. apply bind_Normal, broadcastToRoom_eq. Qed.

Lemma requireFields_eq ws data fields w :
  requireFields ws data fields w =
  let missing := List.filter (missing_field data) fields in
  match missing with
  | [] => Outcome (Normal true) w []
  | _ :: _ =>
      Outcome (Normal false) w
        (reply_to w ws (Event.error ("Missing or invalid fields: " +:+ JS.join ", " missing)))
  end.
Proof.
  unfold requireFields. cbn zeta.
  destruct (List.filter (missing_field data) fields) as [|f fs]; [done|].
  cbn [length Nat.eqb negb]. rewrite bind_send. unfold prepend; cbn. by rewrite app_nil_r.
Qed.

Lemma joinRoom_final ws room w : final (joinRoom ws room w) = join_world ws room w.
Proof.
  unfold joinRoom, join_world. rewrite bind_get.
  case_bool_decide.
  - rewrite !bind_modify, bind_get, bind_broadcastToRoom, bind_send, broadcastPresence_eq. done.
  - rewrite bind_ret, !bind_modify, bind_get, bind_broadcastToRoom, bind_send, broadcastPresence_eq. done.
Qed.

Lemma leaveRoom_eq ws room w :
  leaveRoom ws room w =
  let w2 := leave_membership ws room w in
  let w3 := leave_typing ws room w2 in
  match typingUsers_get w2 room with
  | Inherited => Outcome (Throw TypeError) w2 []
  | _ =>
      Outcome (Normal ()) w3
        (leave_typing_out ws room w2
         ++ fanout w3 room (Event.user_left room (username (socket w3 ws))) (Some ws)
         ++ reply_to w3 ws (Event.system ("Left room: " +:+ room))
         ++ presence_out w3 room)
  end.
Proof.
  cbn zeta.
  assert (Hrest : ∀ w2,
    (modify (with_sockets (alter (set_ws_rooms (JS.Set_delete room)) ws)) ≫= λ _ : (),
      w ← get_world;
      match typingUsers_get w room with
      | Undefined => mret ()
      | Inherited => throw TypeError
      | OwnSet s =>
          let s' := delete_user (username (socket w ws)) s in
          modify (with_typingUsers <[room := s']>);;
          if (length s' =? 0)%nat
          then modify (with_typingUsers (delete room))
          else broadcastToRoom room (Event.typing room s') None
      end;;
      w ← get_world;
      broadcastToRoom room (Event.user_left room (username (socket w ws))) (Some ws);;
      send ws (Event.system ("Left room: " +:+ room));;
      broadcastPresence room) w2
    = let w2 := with_sockets (alter (set_ws_rooms (JS.Set_delete room)) ws) w2 in
      let w3 := leave_typing ws room w2 in
      match typingUsers_get w2 room with
      | Inherited => Outcome (Throw TypeError) w2 []
      | _ =>
        Outcome (Normal ()) w3
          (leave_typing_out ws room w2
           ++ fanout w3 room (Event.user_left room (username (socket w3 ws))) (Some ws)
           ++ reply_to w3 ws (Event.system ("Left room: " +:+ room))
           ++ presence_out w3 room)
      end).
  { intros w1. rewrite bind_modify, bind_get. cbn zeta.
    unfold leave_typing, leave_typing_out.
    destruct (typingUsers_get _ room) as [s| |]; cbn zeta.
    - rewrite bind_assoc, bind_modify.
      destruct (length _ =? 0)%nat.
      + rewrite bind_modify, bind_get, bind_broadcastToRoom, bind_send, broadcastPresence_eq.
        unfold prepend. cbn [result final sent]. done.
      + rewrite bind_broadcastToRoom, bind_get, bind_broadcastToRoom, bind_send, broadcastPresence_eq.
        unfold prepend. cbn [result final sent]. done.
    - by rewrite bind_throw.
    - rewrite bind_ret, bind_get, bind_broadcastToRoom, bind_send, broadcastPresence_eq.
      unfold prepend. cbn [result final sent]. done. }
  unfold leaveRoom. rewrite bind_get. unfold leave_membership, leave_directory.
  case_bool_decide.
  - rewrite bind_assoc, bind_modify, bind_assoc, bind_get. cbn zeta.
    destruct (length _ =? 0)%nat.
    + rewrite bind_modify. apply Hrest.
    + rewrite bind_ret. apply Hrest.
  - rewrite bind_ret. apply Hrest.
Qed.

(** ** Sets as insertion-ordered lists *)

Section Set_facts.
Context {A : Type} `{EqDecision A}.
Implicit Types (x y : A) (s : list A).

Lemma elem_of_Set_add x y s : x ∈ JS.Set_add y s ↔ x = y ∨ x ∈ s.
Proof.
  unfold JS.Set_add, JS.Set_has. case_bool_decide.
  - split; [by right|]. intros [->|]; done.
  - rewrite elem_of_app, list_elem_of_singleton. tauto.
Qed.

Lemma elem_of_Set_delete x y s : x ∈ JS.Set_delete y s ↔ x ∈ s ∧ x ≠ y.
Proof. unfold JS.Set_delete. rewrite list_elem_of_filter. tauto. Qed.

Lemma Set_add_nonempty y s : JS.Set_add y s ≠ [].
Proof.
  intros E. assert (H : y ∈ JS.Set_add y s) by (apply elem_of_Set_add; by left).
  rewrite E in H. by apply not_elem_of_nil in H.
Qed.

Lemma Set_has_true x s : JS.Set_has x s = true ↔ x ∈ s.
Proof. unfold JS.Set_has. apply bool_decide_eq_true. Qed.

Lemma Set_has_false x s : JS.Set_has x s = false ↔ x ∉ s.
Proof. unfold JS.Set_has. apply bool_decide_eq_false. Qed.
End Set_facts.

Lemma length_eqb_0 {A} (l : list A) : (length l =? 0)%nat = true ↔ l = [].
Proof. destruct l; cbn; split; congruence. Qed.

(** ** How joining and leaving change the directory and the sockets *)

Lemma rooms_join_world ws room w r :
  rooms (join_world ws room w) !! r =
  if decide (r = room) then Some (JS.Set_add ws (members w room)) else rooms w !! r.
Proof.
  unfold join_world, members. cbn [rooms with_sockets with_rooms].
  case_bool_decide as E; cbn [rooms with_rooms]; case_decide as Er; subst.
  - rewrite lookup_alter_eq, lookup_insert_eq, E. done.
  - rewrite lookup_alter_ne, lookup_insert_ne by done. done.
  - rewrite lookup_alter_eq. destruct (rooms w !! room); done.
  - by rewrite lookup_alter_ne.
Qed.

Lemma members_join_world ws room w r :
  members (join_world ws room w) r =
  if decide (r = room) then JS.Set_add ws (members w room) else members w r.
Proof. unfold members at 1. rewrite rooms_join_world. by case_decide. Qed.

Lemma rooms_leave_membership ws room w r :
  rooms (leave_membership ws room w) !! r =
  if decide (r = room) then
    match rooms w !! room with
    | Some s => if (length (JS.Set_delete ws s) =? 0)%nat then None
                else Some (JS.Set_delete ws s)
    | None => None
    end
  else rooms w !! r.
Proof.
  unfold leave_membership, leave_directory. cbn [rooms with_sockets].
  case_bool_decide as E.
  - destruct E as [s E]. cbn zeta. unfold members. cbn [rooms with_rooms].
    rewrite lookup_alter_eq, E. cbn [fmap option_fmap option_map from_option id].
    destruct (length _ =? 0)%nat; cbn [rooms with_rooms]; case_decide as Er; subst.
    + by rewrite lookup_delete_eq.
    + by rewrite lookup_delete_ne, lookup_alter_ne.
    + by rewrite lookup_alter_eq, E.
    + by rewrite lookup_alter_ne.
  - case_decide; subst; [|done].
    destruct (rooms w !! room); [|done]. exfalso. eauto.
Qed.

Lemma members_leave_membership ws room w r :
  members (leave_membership ws room w) r =
  if decide (r = room) then JS.Set_delete ws (members w room) else members w r.
Proof.
  unfold members at 1. rewrite rooms_leave_membership. case_decide; [|done].
  unfold members. destruct (rooms w !! room) as [s|]; [|done].
  destruct (length _ =? 0)%nat eqn:E; [|done].
  apply length_eqb_0 in E. cbn [from_option id]. by rewrite E.
Qed.

Lemma ws_rooms_alter f ws w c :
  f [] = [] →
  ws_rooms (socket (with_sockets (alter (set_ws_rooms f) ws) w) c) =
  if decide (c = ws) then f (ws_rooms (socket w c)) else ws_rooms (socket w c).
Proof.
  intros Hf. unfold socket. cbn [sockets with_sockets].
  case_decide; subst.
  - rewrite lookup_alter_eq. by destruct (sockets w !! ws).
  - by rewrite lookup_alter_ne.
Qed.

Lemma ws_rooms_alter_registered f ws w c :
  is_Some (sockets w !! ws) →
  ws_rooms (socket (with_sockets (alter (set_ws_rooms f) ws) w) c) =
  if decide (c = ws) then f (ws_rooms (socket w c)) else ws_rooms (socket w c).
Proof.
  intros [s Hs]. unfold socket. cbn [sockets with_sockets].
  case_decide; subst.
  - by rewrite lookup_alter_eq, Hs.
  - by rewrite lookup_alter_ne.
Qed.

(** ** The two invariants of the directory *)

Lemma same_membership_directory_ok w w' :
  same_membership w w' → directory_ok w → directory_ok w'.
Proof. intros [Hr _] H room s. rewrite Hr. apply H. Qed.

Lemma same_membership_membership_ok w w' :
  same_membership w w' → membership_ok w → membership_ok w'.
Proof. intros [Hr Hs] H ws room. unfold members, socket. rewrite Hr, Hs. apply H. Qed.

Lemma join_world_directory_ok ws room w :
  directory_ok w → directory_ok (join_world ws room w).
Proof.
  intros H r s. rewrite rooms_join_world. case_decide.
  - intros [= <-]. apply Set_add_nonempty.
  - apply H.
Qed.

Lemma leave_membership_directory_ok ws room w :
  directory_ok w → directory_ok (leave_membership ws room w).
Proof.
  intros H r s. rewrite rooms_leave_membership. case_decide; [|apply H].
  destruct (rooms w !! room) as [s0|]; [|done].
  destruct (length _ =? 0)%nat eqn:E; [done|].
  intros [= <-] E'. rewrite E' in E. done.
Qed.

Lemma join_world_membership_ok ws room w :
  is_Some (sockets w !! ws) → membership_ok w → membership_ok (join_world ws room w).
Proof.
  intros Hreg H c r. rewrite members_join_world.
  unfold join_world.
  rewrite ws_rooms_alter_registered by (by case_bool_decide).
  assert (Hs : ∀ c, socket (with_rooms (alter (JS.Set_add ws) room)
             (if bool_decide (rooms w !! room = None)
              then with_rooms <[room:=[]]> w else w)) c = socket w c).
  { intros c'. by case_bool_decide. }
  rewrite Hs. specialize (H c r).
  destruct (decide (r = room)) as [->|Hr], (decide (c = ws)) as [->|Hc];
    rewrite ?elem_of_Set_add; intuition congruence.
Qed.

Lemma sockets_leave_directory ws room w :
  sockets (leave_directory ws room w) = sockets w
  ∧ typingUsers (leave_directory ws room w) = typingUsers w.
Proof.
  unfold leave_directory. case_bool_decide; [|done].
  cbn zeta. by destruct (length _ =? 0)%nat.
Qed.

Lemma socket_leave_directory ws room w c :
  socket (leave_directory ws room w) c = socket w c.
Proof. unfold socket. by rewrite (proj1 (sockets_leave_directory ws room w)). Qed.

Lemma leave_membership_membership_ok ws room w :
  membership_ok w → membership_ok (leave_membership ws room w).
Proof.
  intros H c r. rewrite members_leave_membership.
  unfold leave_membership.
  rewrite ws_rooms_alter, socket_leave_directory by done. specialize (H c r).
  destruct (decide (r = room)) as [->|Hr], (decide (c = ws)) as [->|Hc];
    rewrite ?elem_of_Set_delete; intuition congruence.
Qed.

(** ** The handlers, one equation each *)

Lemma requireFields_complete ws data fields w :
  requireFields ws data fields w =
  Outcome (Normal (complete data fields)) w
    (if complete data fields then [] else complaint w ws data fields).
Proof.
  rewrite requireFields_eq. unfold complete, complaint, missing. cbn zeta.
  by destruct (List.filter _ _).
Qed.

Lemma bind_requireFields {B} ws data fields (f : bool → M B) w :
  (requireFields ws data fields ≫= f) w =
  prepend (if complete data fields then [] else complaint w ws data fields)
          (f (complete data fields) w).
Proof. apply bind_Normal, requireFields_complete. Qed.

Ltac finish_outcome :=
  unfold prepend; cbn [result final sent app]; rewrite ?app_nil_r; try done.

Lemma join_incomplete ws data now w :
  complete data ["room"; "sender"] = false →
  messageHandlers.join ws data now w =
  Outcome (Normal ()) w (complaint w ws data ["room"; "sender"]).
Proof.
  intros H. unfold messageHandlers.join. rewrite bind_requireFields, H. finish_outcome.
Qed.

Lemma join_final ws data now w :
  complete data ["room"; "sender"] = true →
  final (messageHandlers.join ws data now w) =
  join_world ws (JS.str (JS.get data "room"))
    (with_sockets (alter (set_username (Some (JS.str (JS.get data "sender")))) ws) w).
Proof.
  intros H. unfold messageHandlers.join.
  rewrite bind_requireFields, H, bind_modify. cbn [final prepend].
  apply joinRoom_final.
Qed.

Lemma leave_eq ws data now w :
  messageHandlers.leave ws data now w =
  if complete data ["room"] then leaveRoom ws (JS.str (JS.get data "room")) w
  else Outcome (Normal ()) w (complaint w ws data ["room"]).
Proof.
  unfold messageHandlers.leave. rewrite bind_requireFields.
  destruct (complete data ["room"]); [apply prepend_nil|finish_outcome].
Qed.

Lemma message_eq ws data now w :
  messageHandlers.message ws data now w =
  Outcome (Normal ()) w
    (if complete data ["room"; "content"] then
       let room := JS.str (JS.get data "room") in
       if JS.Set_has room (ws_rooms (socket w ws)) then
         fanout w room
           (Event.message room (username (socket w ws))
              (JS.str (JS.get data "content"))
              (JS.or_else (JS.get data "timestamp") (JNum now))
              (JS.or_else (JS.get data "reply") JNull)) None
       else []
     else complaint w ws data ["room"; "content"]).
Proof.
  unfold messageHandlers.message. rewrite bind_requireFields, bind_get. cbn zeta.
  destruct (complete data ["room"; "content"]); cbn [andb]; [|finish_outcome].
  destruct (JS.Set_has _ _); [|done].
  rewrite broadcastToRoom_eq. finish_outcome.
Qed.

Lemma reaction_eq ws data now w :
  messageHandlers.reaction ws data now w =
  Outcome (Normal ()) w
    (if complete data ["room"; "target"; "emoji"] then
       let room := JS.str (JS.get data "room") in
       if JS.Set_has room (ws_rooms (socket w ws)) then
         fanout w room
           (Event.reaction room (username (socket w ws))
              (JS.str (JS.get data "target"))
              (JS.str (JS.get data "emoji"))
              (JS.or_else (JS.get data "timestamp") (JNum now))) None
       else []
     else complaint w ws data ["room"; "target"; "emoji"]).
Proof.
  unfold messageHandlers.reaction. rewrite bind_requireFields, bind_get. cbn zeta.
  destruct (complete data ["room"; "target"; "emoji"]); cbn [andb]; [|finish_outcome].
  destruct (JS.Set_has _ _); [|done].
  rewrite broadcastToRoom_eq. finish_outcome.
Qed.

Lemma presence_request_eq ws data now w :
  messageHandlers.presence_request ws data now w =
  Outcome (Normal ()) w
    (if complete data ["room"] then
       let room := JS.str (JS.get data "room") in
       if JS.Set_has room (ws_rooms (socket w ws)) then presence_out w room else []
     else complaint w ws data ["room"]).
Proof.
  unfold messageHandlers.presence_request. rewrite bind_requireFields, bind_get. cbn zeta.
  destruct (complete data ["room"]); cbn [andb]; [|finish_outcome].
  destruct (JS.Set_has _ _); [|done].
  rewrite broadcastPresence_eq. finish_outcome.
Qed.

Lemma typing_incomplete ws data now w :
  complete data ["room"] = false →
  messageHandlers.typing ws data now w =
  Outcome (Normal ()) w (complaint w ws data ["room"]).
Proof.
  intros H. unfold messageHandlers.typing. rewrite bind_requireFields, H. finish_outcome.
Qed.

Lemma typing_same_membership ws data now w :
  same_membership w (final (messageHandlers.typing ws data now w)).
Proof.
  unfold messageHandlers.typing. rewrite bind_requireFields.
  destruct (complete data ["room"]); cbn [negb]; [|done].
  rewrite prepend_nil, bind_get. cbn zeta.
  destruct (named _) as [name|]; [|done].
  destruct (JS.Set_has _ _); cbn [negb]; [|done].
  destruct (typingUsers_get w _) as [s| |] eqn:E.
  - rewrite bind_ret, bind_get, E, bind_modify, bind_get, broadcastToRoom_eq. done.
  - rewrite bind_ret, bind_get, E, bind_throw. done.
  - rewrite bind_modify, bind_get. cbn beta.
    destruct (typingUsers_get (with_typingUsers _ w) _) as [s| |].
    + rewrite bind_modify, bind_get, broadcastToRoom_eq. done.
    + rewrite bind_throw. done.
    + rewrite bind_throw. done.
Qed.

Lemma on_message_dispatch ws data now w :
  JS.truthy data = true →
  on_message ws (Parsed data) now w =
  let key := JS.ToString_opt (JS.get data "type") in
  match messageHandlers.own key with
  | Some handler => handler ws data now w
  | None =>
      if JS.inherited key then messageHandlers.call_inherited key w
      else Outcome (Normal ()) w
             (reply_to w ws (Event.error ("Unknown message type: " +:+ key)))
  end.
Proof.
  intros H. unfold on_message. cbn [parseJSON]. rewrite H. cbn [negb]. cbn zeta.
  destruct (messageHandlers.own _); [done|].
  destruct (JS.inherited _); [done|]. apply send_eq.
Qed.

Lemma on_message_falsy ws msg now w :
  JS.truthy (parseJSON msg) = false →
  on_message ws msg now w =
  Outcome (Normal ()) w (reply_to w ws (Event.error "Invalid JSON")).
Proof. intros H. unfold on_message. rewrite H. apply send_eq. Qed.

Lemma own_handlers key h :
  messageHandlers.own key = Some h →
  h = messageHandlers.join ∨ h = messageHandlers.leave ∨
  h = messageHandlers.message ∨ h = messageHandlers.reaction ∨
  h = messageHandlers.presence_request ∨ h = messageHandlers.typing.
Proof.
  unfold messageHandlers.own.
  repeat (destruct (String.eqb key _); [intros [= <-]; tauto|]). done.
Qed.

Lemma call_inherited_final key w : final (messageHandlers.call_inherited key w) = w.
Proof. unfold messageHandlers.call_inherited. by destruct (_ || _). Qed.

(** ** Preservation of the invariants *)

Lemma Inv_same_membership w w' : same_membership w w' → Inv w → Inv w'.
Proof.
  intros H [H1 H2]. split;
    eauto using same_membership_directory_ok, same_membership_membership_ok.
Qed.

Lemma Inv_initial : Inv initial.
Proof.
  split.
  - intros room s. cbn. by rewrite lookup_empty.
  - intros ws room. unfold members, socket. cbn. rewrite !lookup_empty. cbn.
    split; intros H; by apply not_elem_of_nil in H.
Qed.

Lemma leave_typing_same_membership ws room w :
  same_membership w (leave_typing ws room w).
Proof.
  unfold leave_typing. destruct (typingUsers_get w room); [|done..].
  cbn zeta. by destruct (length _ =? 0)%nat.
Qed.

Lemma leaveRoom_same_membership ws room w :
  same_membership (leave_membership ws room w) (final (leaveRoom ws room w)).
Proof.
  rewrite leaveRoom_eq. cbn zeta.
  destruct (typingUsers_get _ room) eqn:E; cbn [final]; try done;
    apply leave_typing_same_membership.
Qed.

Lemma leaveRoom_Inv ws room w : Inv w → Inv (final (leaveRoom ws room w)).
Proof.
  intros [H1 H2]. eapply Inv_same_membership; [apply leaveRoom_same_membership|].
  split; [by apply leave_membership_directory_ok|by apply leave_membership_membership_ok].
Qed.

Lemma for_each_final {A} (P : world → Prop) (body : A → M unit) xs w :
  (∀ x w, P w → P (final (body x w))) → P w → P (final (for_each xs body w)).
Proof.
  intros Hbody. revert w. induction xs as [|x xs IH]; intros w Hw; [done|].
  cbn [for_each]. unfold mbind, M_bind.
  specialize (Hbody x w Hw).
  destruct (body x w) as [[[]|e] w1 o1]; cbn [result final] in *; [|done].
  by apply IH.
Qed.

Lemma alter_readyState_Inv ws b w :
  Inv w → Inv (with_sockets (alter (set_readyState_OPEN b) ws) w).
Proof.
  intros [H1 H2]. split; [exact H1|].
  intros c room. specialize (H2 c room). unfold members, socket in *.
  cbn [rooms sockets with_sockets].
  destruct (decide (c = ws)) as [->|Hc].
  - rewrite lookup_alter_eq. by destruct (sockets w !! ws).
  - by rewrite lookup_alter_ne.
Qed.

Lemma alter_username_Inv ws u w :
  Inv w → Inv (with_sockets (alter (set_username u) ws) w).
Proof.
  intros [H1 H2]. split; [exact H1|].
  intros c room. specialize (H2 c room). unfold members, socket in *.
  cbn [rooms sockets with_sockets].
  destruct (decide (c = ws)) as [->|Hc].
  - rewrite lookup_alter_eq. by destruct (sockets w !! ws).
  - by rewrite lookup_alter_ne.
Qed.

Lemma on_connection_Inv ws w :
  sockets w !! ws = None → Inv w → Inv (final (on_connection ws w)).
Proof.
  intros Hnew [H1 H2]. split; [exact H1|].
  intros c room. specialize (H2 c room). unfold on_connection, modify, members, socket in *.
  cbn [final rooms sockets with_sockets].
  destruct (decide (c = ws)) as [->|Hc].
  - rewrite lookup_insert_eq. rewrite Hnew in H2. exact H2.
  - by rewrite lookup_insert_ne.
Qed.

Lemma on_message_Inv ws msg now w :
  is_Some (sockets w !! ws) → Inv w → Inv (final (on_message ws msg now w)).
Proof.
  intros Hreg HI.
  destruct (JS.truthy (parseJSON msg)) eqn:Ht; [|by rewrite on_message_falsy].
  destruct msg as [data|]; [|done]. cbn [parseJSON] in Ht.
  rewrite on_message_dispatch by done. cbn zeta.
  destruct (messageHandlers.own _) as [h|] eqn:Eh.
  - apply own_handlers in Eh as [->|[->|[->|[->|[->| ->]]]]].
    + destruct (complete data ["room"; "sender"]) eqn:Ec.
      * rewrite join_final by done.
        destruct (alter_username_Inv ws (Some (JS.str (JS.get data "sender"))) w HI).
        split; [by apply join_world_directory_ok|apply join_world_membership_ok; [|done]].
        cbn [sockets with_sockets]. rewrite lookup_alter_eq. destruct Hreg as [s ->]. by eexists.
      * by rewrite join_incomplete.
    + rewrite leave_eq. destruct (complete _ _); [by apply leaveRoom_Inv|done].
    + by rewrite message_eq.
    + by rewrite reaction_eq.
    + by rewrite presence_request_eq.
    + eapply Inv_same_membership; [apply typing_same_membership|done].
  - destruct (JS.inherited _); [by rewrite call_inherited_final|done].
Qed.

Lemma on_close_Inv ws w : Inv w → Inv (final (on_close ws w)).
Proof.
  intros H. unfold on_close. rewrite bind_get.
  apply for_each_final; [|done]. intros room w'. apply leaveRoom_Inv.
Qed.

Lemma step_Inv i w : Inv w → Inv (final (step i w)).
Proof.
  intros H. unfold step. rewrite bind_get.
  destruct i as [ws|ws msg now|ws|ws].
  - case_bool_decide; [by apply on_connection_Inv|done].
  - case_bool_decide; [by apply on_message_Inv|done].
  - by apply alter_readyState_Inv.
  - case_bool_decide; [|done]. rewrite bind_modify.
    by apply on_close_Inv, alter_readyState_Inv.
Qed.

Lemma run_Inv inputs w : Inv w → Inv (run w inputs).
Proof.
  revert w. induction inputs as [|i inputs IH]; intros w H; [done|].
  cbn. apply IH, step_Inv, H.
Qed.

Lemma reachable_Inv w : reachable w → Inv w.
Proof. intros [inputs ->]. apply run_Inv, Inv_initial. Qed.

Section Emits_only.
Context (P : Event.payload → Prop).

Lemma emits_only_bind {A B} (m : M A) (f : A → M B) :
  emits_only P m → (∀ a, emits_only P (f a)) → emits_only P (m ≫= f).
Proof.
  intros Hm Hf w d. unfold mbind, M_bind. specialize (Hm w).
  destruct (m w) as [[a|e] w1 o1]; cbn [result final sent] in *; [|apply Hm].
  rewrite elem_of_app. intros [H|H]; [by apply Hm|by eapply Hf].
Qed.

Lemma emits_only_silent {A} (m : M A) : (∀ w, sent (m w) = []) → emits_only P m.
Proof. intros H w d. rewrite H. by intros ?%not_elem_of_nil. Qed.

Lemma emits_only_send ws data : P data → emits_only P (send ws data).
Proof.
  intros H w d. rewrite send_eq. unfold reply_to. cbn [sent].
  destruct (readyState_OPEN _); [|by intros ?%not_elem_of_nil].
  by intros ->%list_elem_of_singleton.
Qed.

Lemma emits_only_broadcastToRoom room data ex :
  P data → emits_only P (broadcastToRoom room data ex).
Proof.
  intros H w d. rewrite broadcastToRoom_eq. unfold fanout. cbn [sent].
  rewrite list_elem_of_fmap. by intros (c & -> & _).
Qed.

Lemma emits_only_broadcastPresence room :
  (∀ users, P (Event.presence room users)) → emits_only P (broadcastPresence room).
Proof.
  intros H w d. rewrite broadcastPresence_eq. unfold presence_out. cbn [sent].
  case_bool_decide; [|by intros ?%not_elem_of_nil].
  unfold fanout. rewrite list_elem_of_fmap. intros (c & -> & _). apply H.
Qed.

Lemma emits_only_for_each {A} (xs : list A) (body : A → M unit) :
  (∀ x, emits_only P (body x)) → emits_only P (for_each xs body).
Proof.
  intros H. induction xs as [|x xs IH]; [by apply emits_only_silent|].
  cbn [for_each]. apply emits_only_bind; [apply H|by intros _].
Qed.
End Emits_only.

Ltac emits_steps :=
  repeat first
    [ apply emits_only_send
    | apply emits_only_broadcastToRoom
    | apply emits_only_broadcastPresence; [intros ?]
    | by apply emits_only_silent
    | apply emits_only_bind; [|intros ?]
    | match goal with
      | |- emits_only _ (if ?b then _ else _) => destruct b
      | |- emits_only _ (match ?x with _ => _ end) => destruct x
      end ];
  try (unfold not_invalid_json; discriminate).

Lemma requireFields_not_invalid_json ws data fields :
  emits_only not_invalid_json (requireFields ws data fields).
Proof. unfold requireFields. cbn zeta. emits_steps. Qed.

Lemma joinRoom_not_invalid_json ws room : emits_only not_invalid_json (joinRoom ws room).
Proof. unfold joinRoom. emits_steps. Qed.

Lemma leaveRoom_not_invalid_json ws room : emits_only not_invalid_json (leaveRoom ws room).
Proof. unfold leaveRoom. emits_steps. Qed.

Lemma handlers_not_invalid_json key h ws data now :
  messageHandlers.own key = Some h → emits_only not_invalid_json (h ws data now).
Proof.
  intros H. apply own_handlers in H as [->|[->|[->|[->|[->| ->]]]]].
  - unfold messageHandlers.join. apply emits_only_bind; [apply requireFields_not_invalid_json|].
    intros []; [|by apply emits_only_silent].
    apply emits_only_bind; [by apply emits_only_silent|intros _].
    apply joinRoom_not_invalid_json.
  - unfold messageHandlers.leave. apply emits_only_bind; [apply requireFields_not_invalid_json|].
    intros []; [|by apply emits_only_silent]. apply leaveRoom_not_invalid_json.
  - unfold messageHandlers.message. apply emits_only_bind; [apply requireFields_not_invalid_json|].
    intros ok. emits_steps.
  - unfold messageHandlers.reaction. apply emits_only_bind; [apply requireFields_not_invalid_json|].
    intros ok. emits_steps.
  - unfold messageHandlers.presence_request. apply emits_only_bind; [apply requireFields_not_invalid_json|].
    intros ok. emits_steps.
  - unfold messageHandlers.typing. apply emits_only_bind; [apply requireFields_not_invalid_json|].
    intros ok. emits_steps.
Qed.

(** ** Dispatch, validation and the effects of leaving *)

Lemma members_nonempty_iff w room : members w room ≠ [] ↔ ∃ ws, ws ∈ members w room.
Proof.
  destruct (members w room) as [|c cs].
  - split; [done|]. by intros [? ?%not_elem_of_nil].
  - split; [|done]. intros _. exists c. apply list_elem_of_here.
Qed.

Lemma rooms_final_leaveRoom ws room w :
  rooms (final (leaveRoom ws room w)) !! room =
  match rooms w !! room with
  | Some s => if (length (JS.Set_delete ws s) =? 0)%nat then None
              else Some (JS.Set_delete ws s)
  | None => None
  end.
Proof.
  destruct (leaveRoom_same_membership ws room w) as [-> _].
  rewrite rooms_leave_membership. by case_decide.
Qed.

Lemma on_message_not_invalid_json ws data now :
  JS.truthy data = true →
  emits_only not_invalid_json (λ w, on_message ws (Parsed data) now w).
Proof.
  intros Ht w d. rewrite on_message_dispatch by done. cbn zeta.
  destruct (messageHandlers.own _) as [h|] eqn:Eh.
  - by eapply handlers_not_invalid_json.
  - destruct (JS.inherited _).
    + unfold messageHandlers.call_inherited.
      destruct (_ || _); by intros ?%not_elem_of_nil.
    + unfold reply_to. cbn [sent]. destruct (readyState_OPEN _).
      * intros ->%list_elem_of_singleton. cbn. unfold not_invalid_json. discriminate.
      * by intros ?%not_elem_of_nil.
Qed.

Lemma complete_false data fields :
  complete data fields = false ↔ ∃ f, f ∈ fields ∧ missing_field data f = true.
Proof.
  unfold complete, missing. split.
  - destruct (List.filter _ _) as [|f fs] eqn:E; [done|]. intros _.
    exists f. rewrite list_elem_of_In. apply filter_In. rewrite E. by left.
  - intros (f & Hf & Hm). destruct (List.filter _ _) as [|g gs] eqn:E; [|done].
    exfalso. assert (H : In f (List.filter (missing_field data) fields)).
    { apply filter_In. by rewrite <- list_elem_of_In. }
    by rewrite E in H.
Qed.

Lemma complete_true data fields :
  complete data fields = true ↔ ∀ f, f ∈ fields → missing_field data f = false.
Proof.
  split.
  - intros H f Hf. destruct (missing_field data f) eqn:E; [|done].
    assert (complete data fields = false) by (apply complete_false; eauto). congruence.
  - intros H. destruct (complete data fields) eqn:E; [done|].
    apply complete_false in E as (f & Hf & Hm). rewrite H in Hm; done.
Qed.

(** What makes a required field missing: the property is absent, or is
    not a string, or is a string of white space only. *)
Lemma missing_field_cases data f :
  missing_field data f = true ↔
  JS.get data f = None
  ∨ (∃ v, JS.get data f = Some v ∧ ∀ s, v ≠ JStr s)
  ∨ (∃ s, JS.get data f = Some (JStr s) ∧ JS.trims_to_empty s = true).
Proof.
  unfold missing_field. destruct (JS.get data f) as [v|]; [|by intuition].
  destruct v; split; try (intros _; right; left; eexists; split; [done|done]);
    try done.
  - intros H. right; right. eauto.
  - intros [|[(v & [= <-] & Hv)|(s' & [= <-] & Hs)]]; [done| |done].
    by destruct (Hv s).
Qed.

Lemma get_Some_truthy data f v : JS.get data f = Some v → JS.truthy data = true.
Proof. by destruct data. Qed.

Lemma dispatch_own ws data now w key fields :
  required_fields key = Some fields →
  JS.ToString_opt (JS.get data "type") = key →
  JS.truthy data = true ∧
  on_message ws (Parsed data) now w =
  match messageHandlers.own key with
  | Some handler => handler ws data now w
  | None => Outcome (Normal ()) w []
  end ∧ is_Some (messageHandlers.own key).
Proof.
  intros Hf Hk.
  assert (Ht : JS.truthy data = true).
  { destruct (JS.get data "type") as [v|] eqn:E; [by eapply get_Some_truthy|].
    subst key. done. }
  split; [done|]. rewrite on_message_dispatch by done. cbn zeta. rewrite Hk.
  unfold required_fields in Hf. unfold messageHandlers.own.
  repeat (destruct (String.eqb key _); [split; [done|by eexists]|]). done.
Qed.


(** X19: a type that names a member of [Object.prototype] is never
    reported: the inherited member is taken for the handler, and the state
    is left as it was. *)
Lemma inherited_type_not_reported ws data now w :
  JS.truthy data = true →
  JS.inherited (JS.ToString_opt (JS.get data "type")) = true →
  sent (on_message ws (Parsed data) now w) = [] ∧
  final (on_message ws (Parsed data) now w) = w.
Proof.
  intros Ht Hi. rewrite on_message_dispatch by done. cbn zeta. rewrite Hi.
  assert (messageHandlers.own (JS.ToString_opt (JS.get data "type")) = None) as ->.
  { revert Hi. generalize (JS.ToString_opt (JS.get data "type")). intros k Hi.
    apply existsb_exists in Hi as (n & Hn & Heq).
    apply String.eqb_eq in Heq. subst n.
    cbn in Hn. repeat (destruct Hn as [<-|Hn]; [reflexivity|]). done. }
  unfold messageHandlers.call_inherited. by destruct (_ || _).
Qed.

(** ** What [leaveRoom] does in a room with an ordinary name *)
Lemma same_membership_views w w' :
  same_membership w w' →
  (∀ c, socket w' c = socket w c)
  ∧ (∀ room, members w' room = members w room)
  ∧ (∀ room data ex, fanout w' room data ex = fanout w room data ex)
  ∧ (∀ ws data, reply_to w' ws data = reply_to w ws data)
  ∧ (∀ room, presence_out w' room = presence_out w room).
Proof.
  intros [Hr Hs].
  assert (H1 : ∀ c, socket w' c = socket w c) by (intros c; unfold socket; by rewrite Hs).
  assert (H2 : ∀ room, members w' room = members w room)
    by (intros room; unfold members; by rewrite Hr).
  assert (H3 : ∀ room data ex, fanout w' room data ex = fanout w room data ex).
  { intros room data ex. unfold fanout, audience. rewrite H2. f_equal.
    apply filter_ext. intros c. by rewrite H1. }
  repeat split; try done.
  - intros ws data. unfold reply_to. by rewrite H1.
  - intros room. unfold presence_out. rewrite Hr, H3.
    assert (snapshot w' room = snapshot w room) as ->; [|done].
    unfold snapshot. rewrite H2.
    induction (members w room) as [|c cs IH]; [done|].
    cbn. by rewrite H1, IH.
Qed.

Lemma leave_membership_typingUsers ws room w :
  typingUsers (leave_membership ws room w) = typingUsers w.
Proof. apply sockets_leave_directory. Qed.

Lemma leave_membership_username ws room w c :
  username (socket (leave_membership ws room w) c) = username (socket w c).
Proof.
  rewrite <- (socket_leave_directory ws room w c).
  unfold leave_membership, socket. cbn [sockets with_sockets].
  destruct (decide (c = ws)) as [->|Hc].
  - rewrite lookup_alter_eq. by destruct (sockets _ !! ws).
  - by rewrite lookup_alter_ne.
Qed.

(** X16: in a room with an ordinary name [leaveRoom] never throws; it
    takes the socket out of the member set, then deletes the leaver's name
    from the typing set of the room and sends the remaining list to the
    open members unless it is empty (the entry is then deleted), then
    tells the remaining open members that the user left, then confirms to
    the leaver, then sends the presence list when the room still exists. *)
Lemma leaveRoom_effects_in_order ws room w :
  JS.inherited room = false →
  let user := username (socket w ws) in
  let w' := final (leaveRoom ws room w) in
  leaveRoom ws room w =
    Outcome (Normal ()) w'
      (match typingUsers w !! room with
       | Some s =>
           if (length (delete_user user s) =? 0)%nat then []
           else fanout w' room (Event.typing room (delete_user user s)) None
       | None => []
       end
       ++ fanout w' room (Event.user_left room user) (Some ws)
       ++ reply_to w' ws (Event.system ("Left room: " +:+ room))
       ++ presence_out w' room)
  ∧ members w' room = JS.Set_delete ws (members w room)
  ∧ typingUsers w' !! room =
      match typingUsers w !! room with
      | Some s => if (length (delete_user user s) =? 0)%nat then None
                  else Some (delete_user user s)
      | None => None
      end.
Proof.
  intros Hi. cbn zeta.
  set (w2 := leave_membership ws room w).
  pose proof (leaveRoom_same_membership ws room w) as Hsame. fold w2 in Hsame.
  destruct (same_membership_views _ _ Hsame) as (Hsock & Hmem & Hfan & Hrep & Hpres).
  destruct (same_membership_views _ _ (leave_typing_same_membership ws room w2))
    as (Hsock3 & _ & Hfan3 & Hrep3 & Hpres3).
  assert (Hget : typingUsers_get w2 room =
                 match typingUsers w !! room with
                 | Some s => OwnSet s
                 | None => Undefined
                 end).
  { unfold typingUsers_get, w2. rewrite leave_membership_typingUsers, Hi.
    by destruct (typingUsers w !! room). }
  assert (Huser : username (socket w2 ws) = username (socket w ws))
    by apply leave_membership_username.
  pose proof (leaveRoom_eq ws room w) as Heq. cbn zeta in Heq. fold w2 in Heq.
  rewrite !Hfan, !Hrep, !Hpres, Hmem.
  split; [|split].
  - clear Hsame Hsock Hmem Hfan Hrep Hpres.
    unfold leave_typing_out in Heq.
    rewrite Hget, Hfan3, Hrep3, Hpres3, Hsock3, Huser in Heq.
    destruct (leaveRoom ws room w) as [r f0 s0]. cbn [final].
    destruct (typingUsers w !! room) as [s|]; cbv iota beta in Heq;
      injection Heq as H1 H2 H3; by rewrite H1, H2, H3, ?Hfan3.
  - unfold w2. rewrite members_leave_membership. by case_decide.
  - rewrite Heq, Hget. unfold leave_typing. rewrite Hget, Huser.
    destruct (typingUsers w !! room) as [s|] eqn:E; cbn zeta; cbn [final].
    + destruct (length _ =? 0)%nat; cbn [typingUsers with_typingUsers].
      * by rewrite lookup_delete_eq.
      * by rewrite lookup_insert_eq.
    + unfold w2. by rewrite leave_membership_typingUsers.
Qed.

(** ** What a [leave] by a socket outside the room keeps *)
Lemma Set_delete_absent {A} `{EqDecision A} (x : A) (s : list A) :
  x ∉ s → JS.Set_delete x s = s.
Proof.
  intros H. unfold JS.Set_delete. induction s as [|y s IH]; [done|].
  apply not_elem_of_cons in H as [Hxy Hs].
  rewrite filter_cons_True by done. by rewrite IH.
Qed.

(** X17: in a reachable state, [leaveRoom] for a room the socket is not
    in, or that has no entry, leaves the directory and the room set of
    every socket as they were. *)
Lemma nonmember_leave_keeps_membership ws room w :
  reachable w → ws ∉ members w room →
  rooms (final (leaveRoom ws room w)) = rooms w
  ∧ ∀ c, ws_rooms (socket (final (leaveRoom ws room w)) c) = ws_rooms (socket w c).
Proof.
  intros [Hd Hm]%reachable_Inv Hnot.
  pose proof (leaveRoom_same_membership ws room w) as Hsame.
  destruct (same_membership_views _ _ Hsame) as (Hsock & _).
  destruct Hsame as [-> _]. split.
  - apply map_eq. intros r. rewrite rooms_leave_membership.
    case_decide as Hr; [subst r|done]. unfold members in Hnot.
    destruct (rooms w !! room) as [s|] eqn:E; [|done]. cbn in Hnot.
    rewrite Set_delete_absent by done.
    destruct (length s =? 0)%nat eqn:El; [|done].
    apply length_eqb_0 in El. by destruct (Hd room s E).
  - intros c. rewrite Hsock. unfold leave_membership.
    rewrite ws_rooms_alter, socket_leave_directory by done.
    case_decide as Hc; [subst c|done].
    apply Set_delete_absent. by rewrite <- (Hm ws room).
Qed.

(** ** The scenarios of the specification, run on the model *)

Example first_join_is_confirmed :
  sent (step (Incoming 1 (Scenario.join "general" "alice") 0)
          (run initial [Connection 1]))
  = [(1, Event.system "Joined room: general");
     (1, Event.presence "general" ["alice"])].
Proof. reflexivity. Qed.

Example second_join_is_announced :
  sent (step (Incoming 2 (Scenario.join "general" "bob") 0)
          (run initial
             [Connection 1; Connection 2;
              Incoming 1 (Scenario.join "general" "alice") 0]))
  = [(1, Event.user_joined "general" (Some "bob"));
     (2, Event.system "Joined room: general");
     (1, Event.presence "general" ["alice"; "bob"]);
     (2, Event.presence "general" ["alice"; "bob"])].
Proof. reflexivity. Qed.

Example typing_then_disconnect :
  sent (step (Closed 1)
          (run initial
             [Connection 1; Connection 2;
              Incoming 1 (Scenario.join "general" "alice") 0;
              Incoming 2 (Scenario.join "general" "bob") 0;
              Incoming 2 (Scenario.typing "general" true) 0;
              Incoming 1 (Scenario.typing "general" true) 0]))
  = [(2, Event.typing "general" ["bob"]);
     (2, Event.user_left "general" (Some "alice"));
     (2, Event.presence "general" ["bob"])].
Proof. reflexivity. Qed.

Example truncated_frame_is_rejected :
  step (Incoming 1 SyntaxError 0) (run initial [Connection 1])
  = Outcome (Normal ()) (run initial [Connection 1])
      [(1, Event.error "Invalid JSON")].
Proof. reflexivity. Qed.

Example array_type_is_printed :
  sent (step (Incoming 1 (Parsed (JObj [("type", JArr [JNum 12; JNull; JStr "a"])])) 0)
          (run initial [Connection 1]))
  = [(1, Event.error "Unknown message type: 12,,a")].
Proof. reflexivity. Qed.

(** * The properties of the specification *)

(** C1: after any sequence of inputs from the empty state, a room name is
    a key of the directory exactly when its member set is non-empty, and
    exactly when some socket records the room in [ws.rooms]; [joinRoom]
    leaves the room in the directory with the joiner added to its (possibly
    new) member set, and [leaveRoom] deletes the entry when the set
    without the leaver is empty and keeps the remaining members
    otherwise. *)
Theorem room_listed_iff_it_has_members inputs room ws w0 :
  let w := run initial inputs in
  (is_Some (rooms w !! room) ↔ members w room ≠ [])
  ∧ (is_Some (rooms w !! room) ↔ ∃ c, room ∈ ws_rooms (socket w c))
  ∧ rooms (final (joinRoom ws room w0)) !! room
    = Some (JS.Set_add ws (members w0 room))
  ∧ rooms (final (leaveRoom ws room w0)) !! room
    = match rooms w0 !! room with
      | Some s => if (length (JS.Set_delete ws s) =? 0)%nat then None
                  else Some (JS.Set_delete ws s)
      | None => None
      end.
Proof.
  cbn zeta. destruct (run_Inv inputs initial Inv_initial) as [Hd Hm].
  set (w := run initial inputs) in *.
  assert (H1 : is_Some (rooms w !! room) ↔ members w room ≠ []).
  { unfold members. split.
    - intros [s Hs]. rewrite Hs. cbn. by eapply Hd.
    - destruct (rooms w !! room); [eauto|done]. }
  split; [exact H1|]. split.
  - rewrite H1, members_nonempty_iff. split; intros [c Hc]; exists c; by apply Hm.
  - split; [|apply rooms_final_leaveRoom].
    rewrite joinRoom_final, rooms_join_world. by case_decide.
Qed.

(** C2, where the code departs from it: a socket that is typing in a room
    and then joins again under another name leaves its old name in the
    typing set, where it matches no member; the name stays there when the
    socket leaves and the room is deleted. *)
Theorem renamed_user_stays_in_typing_set :
  typingUsers (run initial Scenario.renamed_while_typing) !! "general" = Some ["alice"]
  ∧ snapshot (run initial Scenario.renamed_while_typing) "general" = ["bob"]
  ∧ typingUsers
      (run initial (Scenario.renamed_while_typing
                    ++ [Incoming 1 (Scenario.leave "general") 0])) !! "general"
    = Some ["alice"]
  ∧ rooms
      (run initial (Scenario.renamed_while_typing
                    ++ [Incoming 1 (Scenario.leave "general") 0])) !! "general"
    = None.
Proof. repeat split; vm_compute; reflexivity. Qed.

(** C3, where the code departs from it: a [typing] message with
    [typing: false] creates the set when the room has none and leaves it
    empty; so does one that removes the last name. *)
Theorem typing_off_leaves_an_empty_set :
  typingUsers
    (run initial
       [Connection 1;
        Incoming 1 (Scenario.join "general" "alice") 0;
        Incoming 1 (Scenario.typing "general" false) 0]) !! "general" = Some []
  ∧ typingUsers
      (run initial
         [Connection 1;
          Incoming 1 (Scenario.join "general" "alice") 0;
          Incoming 1 (Scenario.typing "general" true) 0;
          Incoming 1 (Scenario.typing "general" false) 0]) !! "general" = Some [].
Proof. split; vm_compute; reflexivity. Qed.

(** C4, as the code has it: a [message] with valid fields from a member
    of the room is broadcast to the room with the server's clock reading
    as its timestamp when the field is absent or falsy ([null], [false],
    [0], the empty string), and with the client's timestamp, unchanged,
    when that is truthy. *)
Theorem message_timestamp_defaults_when_falsy inputs ws data now :
  let w := run initial inputs in
  let room := JS.str (JS.get data "room") in
  JS.ToString_opt (JS.get data "type") = "message" →
  complete data ["room"; "content"] = true →
  ws ∈ members w room →
  ∃ stamp,
    on_message ws (Parsed data) now w =
      Outcome (Normal ()) w
        (fanout w room
           (Event.message room (username (socket w ws))
              (JS.str (JS.get data "content")) stamp
              (JS.or_else (JS.get data "reply") JNull))
           None)
    ∧ (JS.get data "timestamp" = None → stamp = JNum now)
    ∧ (∀ ts, JS.get data "timestamp" = Some ts → JS.truthy ts = true → stamp = ts)
    ∧ (∀ ts, JS.get data "timestamp" = Some ts → JS.truthy ts = false →
             stamp = JNum now).
Proof.
  cbn zeta. intros Hk Hc Hin.
  destruct (run_Inv inputs initial Inv_initial) as [_ Hm].
  rewrite (Hm ws) in Hin. apply Set_has_true in Hin.
  exists (JS.or_else (JS.get data "timestamp") (JNum now)). split.
  - destruct (dispatch_own ws data now (run initial inputs) "message"
                ["room"; "content"] eq_refl Hk) as (_ & -> & _).
    cbn [messageHandlers.own String.eqb Ascii.eqb Bool.eqb].
    rewrite message_eq, Hc. cbn zeta. by rewrite Hin.
  - unfold JS.or_else. repeat split.
    + by intros ->.
    + by intros ts -> ->.
    + by intros ts -> ->.
Qed.

Lemma message_timestamp_defaults_when_falsy_witness :
  ∃ stamp,
    on_message 1
      (Parsed (JObj [("type", JStr "message"); ("room", JStr "general");
                     ("content", JStr "hi"); ("timestamp", JNum 1234)])) 99
      (run initial [Connection 1; Incoming 1 (Scenario.join "general" "alice") 0])
    = Outcome (Normal ())
        (run initial [Connection 1; Incoming 1 (Scenario.join "general" "alice") 0])
        [(1, Event.message "general" (Some "alice") "hi" stamp JNull)]
    ∧ stamp = JNum 1234.
Proof.
  destruct (message_timestamp_defaults_when_falsy
              [Connection 1; Incoming 1 (Scenario.join "general" "alice") 0] 1
              (JObj [("type", JStr "message"); ("room", JStr "general");
                     ("content", JStr "hi"); ("timestamp", JNum 1234)]) 99)
    as (stamp & Heq & _ & Hkeep & _).
  - reflexivity.
  - reflexivity.
  - apply (bool_decide_unpack _). vm_compute. exact I.
  - exists stamp. split.
    + rewrite Heq. reflexivity.
    + apply (Hkeep (JNum 1234)); reflexivity.
Defined.

(** C4 as stated fails: a client that supplies the timestamp [0] gets the
    server's clock reading back instead. *)
Lemma zero_timestamp_is_replaced :
  JS.get (JObj [("type", JStr "message"); ("room", JStr "general");
                ("content", JStr "hi"); ("timestamp", JNum 0)]) "timestamp"
  = Some (JNum 0)
  ∧ sent (on_message 1 (Scenario.message "general" "hi" (JNum 0)) 1700000000000
            (run initial [Connection 1; Incoming 1 (Scenario.join "general" "alice") 0]))
    = [(1, Event.message "general" (Some "alice") "hi" (JNum 1700000000000) JNull)].
Proof. split; reflexivity. Qed.

(** C5, where the code departs from it: the type ["constructor"] is not
    one of the six handlers, yet the sender, whose socket is open, gets no
    [error] event; the lookup finds [Object.prototype.constructor] and
    calls it. *)
Theorem constructor_type_gets_no_error :
  messageHandlers.own "constructor" = None
  ∧ readyState_OPEN (socket (run initial [Connection 1]) 1) = true
  ∧ on_message 1 (Parsed (JObj [("type", JStr "constructor")])) 0
      (run initial [Connection 1])
    = Outcome (Normal ()) (run initial [Connection 1]) [].
Proof. repeat split. Qed.

(** C6: a [message], [reaction] or [presence_request] whose required
    fields are valid, sent by a socket that is not in the member set of
    the named room, is dropped without a trace: nothing is sent to anyone
    and the state is unchanged. *)
Theorem nonmember_event_dropped inputs ws data now key fields :
  let w := run initial inputs in
  key ∈ ["message"; "reaction"; "presence_request"] →
  JS.ToString_opt (JS.get data "type") = key →
  required_fields key = Some fields →
  complete data fields = true →
  ws ∉ members w (JS.str (JS.get data "room")) →
  on_message ws (Parsed data) now w = Outcome (Normal ()) w [].
Proof.
  cbn zeta. intros Hkey Hk Hf Hc Hnot.
  destruct (run_Inv inputs initial Inv_initial) as [_ Hm].
  rewrite (Hm ws) in Hnot. apply Set_has_false in Hnot.
  destruct (dispatch_own ws data now (run initial inputs) key fields Hf Hk) as (_ & -> & _).
  clear Hk.
  apply elem_of_cons in Hkey as [->|Hkey]; [|apply elem_of_cons in Hkey as [->|Hkey]];
    [| |apply list_elem_of_singleton in Hkey as ->];
    injection Hf as <-; cbn [messageHandlers.own String.eqb Ascii.eqb Bool.eqb].
  - rewrite message_eq, Hc. cbn zeta. by rewrite Hnot.
  - rewrite reaction_eq, Hc. cbn zeta. by rewrite Hnot.
  - rewrite presence_request_eq, Hc. cbn zeta. by rewrite Hnot.
Qed.

Lemma nonmember_event_dropped_witness :
  on_message 1
    (Parsed (JObj [("type", JStr "message"); ("room", JStr "general");
                   ("content", JStr "hi")])) 0
    (run initial
       [Connection 1; Connection 2;
        Incoming 2 (Parsed (JObj [("type", JStr "join"); ("room", JStr "general");
                                  ("sender", JStr "bob")])) 0])
  = Outcome (Normal ())
      (run initial
         [Connection 1; Connection 2;
          Incoming 2 (Parsed (JObj [("type", JStr "join"); ("room", JStr "general");
                                    ("sender", JStr "bob")])) 0])
      [].
Proof.
  apply (nonmember_event_dropped
           [Connection 1; Connection 2;
            Incoming 2 (Parsed (JObj [("type", JStr "join"); ("room", JStr "general");
                                      ("sender", JStr "bob")])) 0]
           1
           (JObj [("type", JStr "message"); ("room", JStr "general");
                  ("content", JStr "hi")])
           0 "message" ["room"; "content"]).
  - apply list_elem_of_here.
  - reflexivity.
  - reflexivity.
  - reflexivity.
  - apply (bool_decide_unpack _). vm_compute. exact I.
Defined.

(** C7: when a required field of a [join], [leave], [message], [reaction],
    [presence_request] or [typing] message is absent, not a string or
    blank, the only effect is one [error] reply to the sender that lists
    the missing fields: the state is unchanged and no room receives
    anything. *)
Theorem missing_field_only_reports ws data now w key fields :
  required_fields key = Some fields →
  JS.ToString_opt (JS.get data "type") = key →
  (∃ f, f ∈ fields ∧ missing_field data f = true) →
  on_message ws (Parsed data) now w =
  Outcome (Normal ()) w
    (reply_to w ws
       (Event.error ("Missing or invalid fields: "
                     +:+ JS.join ", " (List.filter (missing_field data) fields)))).
Proof.
  intros Hf Hk Hm. apply complete_false in Hm.
  destruct (dispatch_own ws data now w key fields Hf Hk) as (_ & -> & _).
  unfold required_fields in Hf. unfold messageHandlers.own.
  repeat (destruct (String.eqb key _);
          [injection Hf as <-;
           first [ by rewrite join_incomplete
                 | by rewrite leave_eq, Hm
                 | by rewrite message_eq, Hm
                 | by rewrite reaction_eq, Hm
                 | by rewrite presence_request_eq, Hm
                 | by rewrite typing_incomplete ]|]).
  done.
Qed.

Lemma missing_field_only_reports_witness :
  on_message 1
    (Parsed (JObj [("type", JStr "message"); ("room", JStr "general")])) 0
    (run initial [Connection 1])
  = Outcome (Normal ()) (run initial [Connection 1])
      [(1, Event.error "Missing or invalid fields: content")].
Proof.
  apply (missing_field_only_reports 1
           (JObj [("type", JStr "message"); ("room", JStr "general")]) 0
           (run initial [Connection 1]) "message" ["room"; "content"]).
  - reflexivity.
  - reflexivity.
  - exists "content". split; [|reflexivity].
    apply list_elem_of_further, list_elem_of_here.
Defined.

(** C8, where the code departs from it: in a room named like a member of
    [Object.prototype], [typingUsers[room]] is that member; the call of its
    [delete] throws after the membership update, and nothing of the
    sequence happens: no [user_left], no confirmation, no presence
    update. *)
Theorem leave_throws_in_room_named_constructor :
  members (run initial Scenario.two_in_constructor) "constructor" = [1; 2]
  ∧ result (on_message 1 (Scenario.leave "constructor") 0
              (run initial Scenario.two_in_constructor))
    = Throw TypeError
  ∧ sent (on_message 1 (Scenario.leave "constructor") 0
            (run initial Scenario.two_in_constructor))
    = []
  ∧ members
      (final (on_message 1 (Scenario.leave "constructor") 0
                (run initial Scenario.two_in_constructor))) "constructor"
    = [2].
Proof. repeat split; vm_compute; reflexivity. Qed.

(** C9, where the code departs from it: a [leave] for a room the sender
    is not in removes the sender's name from that room's typing set when a
    member of the room types under the same name, and the members are
    told that the name left. *)
Theorem nonmember_leave_clears_typing_name :
  (2 ∉ members (run initial Scenario.namesake_outside) "general")
  ∧ typingUsers (run initial Scenario.namesake_outside) !! "general" = Some ["alice"]
  ∧ typingUsers
      (final (on_message 2 (Scenario.leave "general") 0
                (run initial Scenario.namesake_outside))) !! "general"
    = None
  ∧ sent (on_message 2 (Scenario.leave "general") 0
            (run initial Scenario.namesake_outside))
    = [(1, Event.user_left "general" (Some "alice"));
       (2, Event.system "Left room: general");
       (1, Event.presence "general" ["alice"])].
Proof.
  split; [apply (bool_decide_unpack _); vm_compute; exact I|].
  repeat split; vm_compute; reflexivity.
Qed.

(** C10: a frame whose decoded value is falsy, be it undecodable or one
    of the JSON texts [null], [false], [0] and the empty string, gets the
    reply ["Invalid JSON"] and nothing else happens; a frame whose decoded
    value is truthy never gets that reply. *)
Theorem invalid_json_reply_iff_falsy ws msg now w :
  (JS.truthy (parseJSON msg) = false →
     on_message ws msg now w =
     Outcome (Normal ()) w (reply_to w ws (Event.error "Invalid JSON")))
  ∧ (JS.truthy (parseJSON msg) = true →
     ∀ d, d ∈ sent (on_message ws msg now w) → d.2 ≠ Event.error "Invalid JSON")
  ∧ Forall (λ v, JS.truthy (parseJSON (Parsed v)) = false)
      [JNull; JBool false; JNum 0; JStr ""].
Proof.
  split; [apply on_message_falsy|]. split.
  - intros Ht d Hd. destruct msg as [data|]; [|done].
    by apply (on_message_not_invalid_json ws data now Ht w d).
  - repeat constructor.
Qed.

Lemma invalid_json_reply_iff_falsy_witness :
  on_message 1 (Parsed (JNum 0)) 0 (run initial [Connection 1]) =
  Outcome (Normal ()) (run initial [Connection 1]) [(1, Event.error "Invalid JSON")]
  ∧ (1, Event.error "Unknown message type: undefined").2 ≠ Event.error "Invalid JSON".
Proof.
  split.
  - apply (invalid_json_reply_iff_falsy 1 (Parsed (JNum 0)) 0 (run initial [Connection 1])).
    reflexivity.
  - apply (invalid_json_reply_iff_falsy 1 (Parsed (JStr "join")) 0 (run initial [Connection 1])).
    + reflexivity.
    + apply list_elem_of_here.
Defined.

(** * Further properties of the code *)

(** ** The [typing] handler, in one equation *)

Lemma typing_eq ws data now w :
  messageHandlers.typing ws data now w =
  let room := JS.str (JS.get data "room") in
  let on := JS.truthy_opt (JS.get data "typing") in
  if complete data ["room"] then
    match named (username (socket w ws)) with
    | None => Outcome (Normal ()) w []
    | Some name =>
        if JS.Set_has room (ws_rooms (socket w ws)) then
          if bool_decide (typingUsers w !! room = None) && JS.inherited room
          then Outcome (Throw TypeError) w []
          else
            let w' := typing_update room name on w in
            Outcome (Normal ()) w'
              (fanout w room
                 (Event.typing room (default [] (typingUsers w' !! room))) None)
        else Outcome (Normal ()) w []
    end
  else Outcome (Normal ()) w (complaint w ws data ["room"]).
Proof.
  cbn zeta. unfold messageHandlers.typing. rewrite bind_requireFields.
  destruct (complete data ["room"]); cbn [negb]; [|finish_outcome].
  rewrite prepend_nil, bind_get. cbn zeta.
  destruct (named _) as [name|]; [|done].
  destruct (JS.Set_has _ _); cbn [negb]; [|done].
  unfold typing_update. set (room := JS.str (JS.get data "room")).
  destruct (typingUsers w !! room) as [s|] eqn:E.
  - assert (Eg : typingUsers_get w room = OwnSet s)
      by (unfold typingUsers_get; by rewrite E).
    rewrite bool_decide_eq_false_2 by done. cbn [andb].
    rewrite Eg, bind_ret, bind_get, Eg, bind_modify, bind_get, broadcastToRoom_eq.
    reflexivity.
  - rewrite bool_decide_eq_true_2 by done. cbn [andb].
    destruct (JS.inherited room) eqn:Ei.
    + assert (Eg : typingUsers_get w room = Inherited)
        by (unfold typingUsers_get; by rewrite E, Ei).
      by rewrite Eg, bind_ret, bind_get, Eg, bind_throw.
    + assert (Eg : typingUsers_get w room = Undefined)
        by (unfold typingUsers_get; by rewrite E, Ei).
      rewrite Eg, bind_modify, bind_get. unfold typingUsers_get.
      cbn [typingUsers with_typingUsers]. rewrite lookup_insert_eq.
      rewrite bind_modify, bind_get, broadcastToRoom_eq.
      unfold with_typingUsers. cbn [rooms typingUsers sockets final sent result].
      rewrite insert_insert_eq. reflexivity.
Qed.

(** ** An induction principle for the reachable states *)

Lemma complete_field data fields f :
  complete data fields = true → f ∈ fields →
  ∃ s, JS.get data f = Some (JStr s) ∧ JS.trims_to_empty s = false.
Proof.
  intros Hc Hf. pose proof (proj1 (complete_true data fields) Hc f Hf) as Hm.
  unfold missing_field in Hm.
  destruct (JS.get data f) as [[]|]; try discriminate. eauto.
Qed.

Lemma leaveRoom_final_cases ws room w :
  final (leaveRoom ws room w) = leave_membership ws room w
  ∨ final (leaveRoom ws room w) = leave_typing ws room (leave_membership ws room w).
Proof.
  rewrite leaveRoom_eq. cbn zeta. destruct (typingUsers_get _ _); cbn [final]; auto.
Qed.

Section Step_invariant.
Context (P : world → Prop).
Hypothesis P_connection : ∀ ws w,
  sockets w !! ws = None → P w → P (with_sockets <[ws := fresh_socket]> w).
Hypothesis P_readyState : ∀ ws b w,
  P w → P (with_sockets (alter (set_readyState_OPEN b) ws) w).
Hypothesis P_join : ∀ ws room name w,
  is_Some (sockets w !! ws) → JS.trims_to_empty name = false →
  P w → P (join_handled ws room name w).
Hypothesis P_leave_membership : ∀ ws room w, P w → P (leave_membership ws room w).
Hypothesis P_leave_typing : ∀ ws room w, P w → P (leave_typing ws room w).
Hypothesis P_typing : ∀ ws room name on w,
  named (username (socket w ws)) = Some name → room ∈ ws_rooms (socket w ws) →
  (typingUsers w !! room = None → JS.inherited room = false) →
  P w → P (typing_update room name on w).

Lemma leaveRoom_keeps ws room w : P w → P (final (leaveRoom ws room w)).
Proof.
  intros H. destruct (leaveRoom_final_cases ws room w) as [-> | ->]; auto.
Qed.

Lemma on_message_keeps ws msg now w :
  is_Some (sockets w !! ws) → P w → P (final (on_message ws msg now w)).
Proof.
  intros Hreg HP.
  destruct (JS.truthy (parseJSON msg)) eqn:Ht; [|by rewrite on_message_falsy].
  destruct msg as [data|]; [|done]. cbn [parseJSON] in Ht.
  rewrite on_message_dispatch by done. cbn zeta.
  destruct (messageHandlers.own _) as [h|] eqn:Eh.
  - apply own_handlers in Eh as [->|[->|[->|[->|[->| ->]]]]].
    + destruct (complete data ["room"; "sender"]) eqn:Ec.
      * rewrite join_final by done.
        destruct (complete_field data _ "sender" Ec) as (s & Hs & Hb).
        { apply list_elem_of_further, list_elem_of_here. }
        rewrite Hs. cbn [JS.str]. by apply P_join.
      * by rewrite join_incomplete.
    + rewrite leave_eq. destruct (complete _ _); [by apply leaveRoom_keeps|done].
    + by rewrite message_eq.
    + by rewrite reaction_eq.
    + by rewrite presence_request_eq.
    + rewrite typing_eq. cbn zeta.
      destruct (complete _ _); [|done].
      destruct (named _) as [name|] eqn:En; [|done].
      destruct (JS.Set_has _ _) eqn:Eh; [|done].
      destruct (_ && _) eqn:Eb; [done|]. cbn [final].
      apply (P_typing ws); [done| | |done]; [by apply Set_has_true|].
      intros Hn. rewrite bool_decide_eq_true_2 in Eb by done. exact Eb.
  - destruct (JS.inherited _); [by rewrite call_inherited_final|done].
Qed.

Lemma on_close_keeps ws w : P w → P (final (on_close ws w)).
Proof.
  intros H. unfold on_close. rewrite bind_get.
  apply for_each_final; [|done]. intros room w'. apply leaveRoom_keeps.
Qed.

Lemma step_keeps i w : P w → P (final (step i w)).
Proof.
  intros H. unfold step. rewrite bind_get.
  destruct i as [ws|ws msg now|ws|ws].
  - case_bool_decide; [|done]. by apply P_connection.
  - case_bool_decide; [by apply on_message_keeps|done].
  - by apply P_readyState.
  - case_bool_decide; [|done]. rewrite bind_modify.
    by apply on_close_keeps, P_readyState.
Qed.

Lemma run_keeps inputs w : P w → P (run w inputs).
Proof.
  revert w. induction inputs as [|i inputs IH]; intros w H; [done|].
  cbn. apply IH, step_keeps, H.
Qed.

Lemma reachable_keeps w : P initial → reachable w → P w.
Proof. intros H0 [inputs ->]. by apply run_keeps. Qed.
End Step_invariant.

(** ** The fields of a socket after each update *)

Section Set_nodup.
Context {A : Type} `{EqDecision A}.
Implicit Types (x : A) (s : list A).

Lemma NoDup_Set_add x s : NoDup s → NoDup (JS.Set_add x s).
Proof.
  intros H. unfold JS.Set_add, JS.Set_has. case_bool_decide as Hx; [done|].
  apply NoDup_app. split; [done|]. split; [|apply NoDup_singleton].
  intros y Hy ->%list_elem_of_singleton. done.
Qed.

Lemma NoDup_Set_delete x s : NoDup s → NoDup (JS.Set_delete x s).
Proof. apply NoDup_filter. Qed.

Lemma Set_add_present x s : x ∈ s → JS.Set_add x s = s.
Proof. intros H. unfold JS.Set_add, JS.Set_has. by rewrite bool_decide_eq_true_2. Qed.

Lemma Set_add_idemp x s : JS.Set_add x (JS.Set_add x s) = JS.Set_add x s.
Proof. apply Set_add_present, elem_of_Set_add. by left. Qed.

Lemma Set_delete_add x s : x ∉ s → JS.Set_delete x (JS.Set_add x s) = s.
Proof.
  intros H. unfold JS.Set_add, JS.Set_has. rewrite bool_decide_eq_false_2 by done.
  unfold JS.Set_delete. rewrite filter_app, filter_cons_False, filter_nil, app_nil_r
    by (intros Hn; by apply Hn).
  by apply Set_delete_absent.
Qed.
End Set_nodup.

Lemma socket_insert ws s w c :
  socket (with_sockets <[ws := s]> w) c = if decide (c = ws) then s else socket w c.
Proof.
  unfold socket. cbn [sockets with_sockets]. case_decide; subst.
  - by rewrite lookup_insert_eq.
  - by rewrite lookup_insert_ne.
Qed.

Lemma socket_alter f ws w c :
  socket (with_sockets (alter f ws) w) c =
  if decide (c = ws) then
    if bool_decide (is_Some (sockets w !! ws)) then f (socket w c) else socket w c
  else socket w c.
Proof.
  unfold socket. cbn [sockets with_sockets]. case_decide; subst.
  - rewrite lookup_alter_eq. by destruct (sockets w !! ws).
  - by rewrite lookup_alter_ne.
Qed.

Lemma socket_with_rooms f w c : socket (with_rooms f w) c = socket w c.
Proof. done. Qed.

Lemma socket_with_typingUsers f w c : socket (with_typingUsers f w) c = socket w c.
Proof. done. Qed.

Lemma socket_join_handled ws room name w c :
  is_Some (sockets w !! ws) →
  socket (join_handled ws room name w) c =
  if decide (c = ws)
  then {| readyState_OPEN := readyState_OPEN (socket w c);
          username := Some name;
          ws_rooms := JS.Set_add room (ws_rooms (socket w c)) |}
  else socket w c.
Proof.
  intros Hreg. unfold join_handled, join_world.
  rewrite socket_alter, socket_with_rooms.
  assert (Hs : ∀ w', socket (if bool_decide (rooms w' !! room = None)
                             then with_rooms <[room:=[]]> w' else w') c = socket w' c)
    by (intros w'; by case_bool_decide).
  rewrite Hs, socket_alter.
  assert (Hd : sockets (if bool_decide
                   (rooms (with_sockets (alter (set_username (Some name)) ws) w) !! room = None)
                 then with_rooms <[room:=[]]>
                        (with_sockets (alter (set_username (Some name)) ws) w)
                 else with_sockets (alter (set_username (Some name)) ws) w)
               = alter (set_username (Some name)) ws (sockets w))
    by (by case_bool_decide).
  cbn [sockets with_rooms]. rewrite Hd.
  case_decide; [subst c|done].
  rewrite lookup_alter_eq. destruct Hreg as [s Hs']. rewrite Hs'.
  rewrite !bool_decide_eq_true_2 by (by eexists). done.
Qed.

Lemma members_join_handled ws room name w r :
  members (join_handled ws room name w) r =
  if decide (r = room) then JS.Set_add ws (members w room) else members w r.
Proof. unfold join_handled. by rewrite members_join_world. Qed.

Lemma socket_leave_membership ws room w c :
  socket (leave_membership ws room w) c =
  if decide (c = ws)
  then {| readyState_OPEN := readyState_OPEN (socket w c);
          username := username (socket w c);
          ws_rooms := JS.Set_delete room (ws_rooms (socket w c)) |}
  else socket w c.
Proof.
  unfold leave_membership. rewrite socket_alter, socket_leave_directory.
  case_decide; [subst c|done].
  rewrite (proj1 (sockets_leave_directory ws room w)).
  case_bool_decide as Hreg; [done|].
  unfold socket. destruct (sockets w !! ws) eqn:E; [exfalso; eauto|]. done.
Qed.

Lemma socket_leave_typing ws room w c : socket (leave_typing ws room w) c = socket w c.
Proof.
  unfold leave_typing. destruct (typingUsers_get w room); [|done..].
  cbn zeta. by destruct (length _ =? 0)%nat.
Qed.

Lemma members_leave_typing ws room w r : members (leave_typing ws room w) r = members w r.
Proof.
  unfold leave_typing. destruct (typingUsers_get w room); [|done..].
  cbn zeta. by destruct (length _ =? 0)%nat.
Qed.

Lemma typingUsers_leave_typing ws room w r :
  typingUsers (leave_typing ws room w) !! r =
  if decide (r = room) then
    match typingUsers w !! room with
    | Some s =>
        if (length (delete_user (username (socket w ws)) s) =? 0)%nat then None
        else Some (delete_user (username (socket w ws)) s)
    | None => None
    end
  else typingUsers w !! r.
Proof.
  unfold leave_typing, typingUsers_get.
  destruct (typingUsers w !! room) as [s|] eqn:E.
  - cbn zeta. destruct (length _ =? 0)%nat; cbn [typingUsers with_typingUsers];
      case_decide; subst.
    + by rewrite lookup_delete_eq.
    + by rewrite lookup_delete_ne, lookup_insert_ne.
    + by rewrite lookup_insert_eq.
    + by rewrite lookup_insert_ne.
  - destruct (JS.inherited room); case_decide; by subst.
Qed.

Lemma typingUsers_typing_update room name on w r :
  typingUsers (typing_update room name on w) !! r =
  if decide (r = room) then
    Some (if on then JS.Set_add name (default [] (typingUsers w !! room))
          else JS.Set_delete name (default [] (typingUsers w !! room)))
  else typingUsers w !! r.
Proof.
  unfold typing_update. cbn [typingUsers with_typingUsers]. case_decide; subst.
  - by rewrite lookup_insert_eq.
  - by rewrite lookup_insert_ne.
Qed.

Lemma typingUsers_join_handled ws room name w :
  typingUsers (join_handled ws room name w) = typingUsers w.
Proof. unfold join_handled, join_world. cbn. by case_bool_decide. Qed.

(** ** Sets stay sets, names stay names *)

Lemma sets_ok_reachable w : reachable w → sets_ok w.
Proof.
  apply reachable_keeps; clear w.
  - intros ws w Hnew (Hm & Hr & Ht). split; [done|]. split; [|done].
    intros c. rewrite socket_insert. case_decide; [apply NoDup_nil_2|apply Hr].
  - intros ws b w (Hm & Hr & Ht). split; [done|]. split; [|done].
    intros c. rewrite socket_alter. specialize (Hr c).
    case_decide; [|done]. by case_bool_decide.
  - intros ws room name w Hreg _ (Hm & Hr & Ht). split; [|split].
    + intros r. rewrite members_join_handled.
      case_decide; [by apply NoDup_Set_add|done].
    + intros c. rewrite socket_join_handled by done.
      case_decide; [by apply NoDup_Set_add|done].
    + intros r s. rewrite typingUsers_join_handled. apply Ht.
  - intros ws room w (Hm & Hr & Ht). split; [|split].
    + intros r. rewrite members_leave_membership.
      case_decide; [by apply NoDup_Set_delete|done].
    + intros c. rewrite socket_leave_membership.
      case_decide; [by apply NoDup_Set_delete|done].
    + intros r s. rewrite leave_membership_typingUsers. apply Ht.
  - intros ws room w (Hm & Hr & Ht). split; [|split].
    + intros r. by rewrite members_leave_typing.
    + intros c. by rewrite socket_leave_typing.
    + intros r s. rewrite typingUsers_leave_typing.
      case_decide; [|apply Ht]. destruct (typingUsers w !! room) as [s0|] eqn:E; [|done].
      destruct (length _ =? 0)%nat; [done|]. intros [= <-].
      unfold delete_user. destruct (username _); [apply NoDup_Set_delete|]; by eapply Ht.
  - intros ws room name on w _ _ _ (Hm & Hr & Ht). split; [done|]. split; [done|].
    intros r s. rewrite typingUsers_typing_update.
    case_decide; [|apply Ht]. intros [= <-].
    assert (NoDup (default [] (typingUsers w !! room))).
    { destruct (typingUsers w !! room) eqn:E; [by eapply Ht|apply NoDup_nil_2]. }
    destruct on; [by apply NoDup_Set_add|by apply NoDup_Set_delete].
  - split; [|split].
    + intros r. unfold members. cbn. rewrite lookup_empty. apply NoDup_nil_2.
    + intros c. unfold socket. cbn. rewrite lookup_empty. apply NoDup_nil_2.
    + intros r s. cbn. by rewrite lookup_empty.
Qed.

Lemma named_Some u name : named u = Some name → u = Some name ∧ name ≠ "".
Proof.
  unfold named. destruct u as [s|]; [|done].
  destruct (String.eqb s "") eqn:E; [done|]. intros [= ->].
  split; [done|]. intros ->. done.
Qed.

Lemma names_ok_reachable w : reachable w → names_ok w.
Proof.
  apply reachable_keeps; clear w.
  - intros ws w Hnew (Hu & Ht). split; [|done].
    intros c. rewrite socket_insert. case_decide; [done|apply Hu].
  - intros ws b w (Hu & Ht). split; [|done].
    intros c. rewrite socket_alter. specialize (Hu c).
    case_decide; [|done]. by case_bool_decide.
  - intros ws room name w Hreg Hname (Hu & Ht). split.
    + intros c. rewrite socket_join_handled by done. case_decide; [done|apply Hu].
    + intros r s n. rewrite typingUsers_join_handled. apply Ht.
  - intros ws room w (Hu & Ht). split.
    + intros c. rewrite socket_leave_membership. specialize (Hu c).
      case_decide; [|done]. cbn [username ws_rooms].
      destruct (username (socket w c)); [done|]. by rewrite Hu.
    + intros r s n. rewrite leave_membership_typingUsers. apply Ht.
  - intros ws room w (Hu & Ht). split.
    + intros c. rewrite socket_leave_typing. apply Hu.
    + intros r s n. rewrite typingUsers_leave_typing.
      case_decide; [|apply Ht]. destruct (typingUsers w !! room) as [s0|] eqn:E; [|done].
      destruct (length _ =? 0)%nat; [done|]. intros [= <-].
      unfold delete_user. destruct (username _).
      * intros [Hn _]%elem_of_Set_delete. by eapply Ht.
      * by eapply Ht.
  - intros ws room name on w Hn _ _ (Hu & Ht). split; [done|].
    intros r s n. rewrite typingUsers_typing_update.
    case_decide; [|apply Ht]. intros [= <-].
    assert (Hold : ∀ n, n ∈ default [] (typingUsers w !! room) →
                        JS.trims_to_empty n = false).
    { intros n'. destruct (typingUsers w !! room) eqn:E; cbn.
      - by eapply Ht.
      - by intros ?%not_elem_of_nil. }
    apply named_Some in Hn as [Hn _]. specialize (Hu ws). rewrite Hn in Hu.
    destruct on.
    + intros [->|Hin]%elem_of_Set_add; [done|by apply Hold].
    + intros [Hin _]%elem_of_Set_delete. by apply Hold.
  - split.
    + intros c. unfold socket. cbn. by rewrite lookup_empty.
    + intros r s n. cbn. by rewrite lookup_empty.
Qed.

Lemma typing_keys_ok_reachable w : reachable w → typing_keys_ok w.
Proof.
  apply reachable_keeps; clear w; try done.
  - intros ws room name w _ _ H r. rewrite typingUsers_join_handled. apply H.
  - intros ws room w H r. rewrite leave_membership_typingUsers. apply H.
  - intros ws room w H r Hi. rewrite typingUsers_leave_typing.
    case_decide; [subst r|by apply H]. by rewrite (H room Hi).
  - intros ws room name on w _ _ Hkey H r Hi. rewrite typingUsers_typing_update.
    case_decide; [subst r|by apply H]. rewrite (Hkey (H room Hi)) in Hi. done.
Qed.

(** ** Nothing is written to a socket that is not open *)

Section Respects_readyState.

Lemma respects_bind {A B} (m : M A) (f : A → M B) :
  respects_readyState m → (∀ a, respects_readyState (f a)) →
  respects_readyState (m ≫= f).
Proof.
  intros Hm Hf w. unfold mbind, M_bind. destruct (Hm w) as [Hm1 Hm2].
  destruct (m w) as [[a|e] w1 o1]; cbn [result final sent] in *; [|done].
  destruct (Hf a w1) as [Hf1 Hf2]. split.
  - intros c. by rewrite Hf1.
  - intros d [H|H]%elem_of_app; [by apply Hm2|]. rewrite <- Hm1. by apply Hf2.
Qed.

Lemma respects_quiet {A} (m : M A) :
  (∀ w, sent (m w) = []) →
  (∀ w c, readyState_OPEN (socket (final (m w)) c) = readyState_OPEN (socket w c)) →
  respects_readyState m.
Proof. intros H1 H2 w. split; [apply H2|]. rewrite H1. by intros d ?%not_elem_of_nil. Qed.

Lemma respects_send ws data : respects_readyState (send ws data).
Proof.
  intros w. rewrite send_eq. unfold reply_to. cbn [final sent]. split; [done|].
  destruct (readyState_OPEN (socket w ws)) eqn:E; [|by intros d ?%not_elem_of_nil].
  by intros d ->%list_elem_of_singleton.
Qed.

Lemma fanout_open w room data ex d :
  d ∈ fanout w room data ex → readyState_OPEN (socket w d.1) = true.
Proof.
  unfold fanout, audience. rewrite list_elem_of_fmap. intros (c & -> & Hc).
  apply list_elem_of_In, filter_In in Hc as [_ Hc]. cbn.
  by apply andb_true_iff in Hc as [Hc _].
Qed.

Lemma respects_broadcastToRoom room data ex :
  respects_readyState (broadcastToRoom room data ex).
Proof.
  intros w. rewrite broadcastToRoom_eq. cbn [final sent]. split; [done|].
  intros d. apply fanout_open.
Qed.

Lemma respects_broadcastPresence room : respects_readyState (broadcastPresence room).
Proof.
  intros w. rewrite broadcastPresence_eq. unfold presence_out. cbn [final sent].
  split; [done|]. case_bool_decide; [|by intros d ?%not_elem_of_nil].
  intros d. apply fanout_open.
Qed.

Lemma respects_for_each {A} (xs : list A) (body : A → M unit) :
  (∀ x, respects_readyState (body x)) → respects_readyState (for_each xs body).
Proof.
  intros H. induction xs as [|x xs IH]; [by apply respects_quiet|].
  cbn [for_each]. apply respects_bind; [apply H|by intros _].
Qed.

Lemma respects_modify_rooms f : respects_readyState (modify (with_rooms f)).
Proof. by apply respects_quiet. Qed.

Lemma respects_modify_typingUsers f : respects_readyState (modify (with_typingUsers f)).
Proof. by apply respects_quiet. Qed.

Lemma respects_modify_socket f ws :
  (∀ s, readyState_OPEN (f s) = readyState_OPEN s) →
  respects_readyState (modify (with_sockets (alter f ws))).
Proof.
  intros Hf. apply respects_quiet; [done|]. intros w c. cbn [final modify].
  rewrite socket_alter. case_decide; [|done]. by case_bool_decide.
Qed.
End Respects_readyState.

Ltac respects_steps :=
  repeat first
    [ apply respects_send
    | apply respects_broadcastToRoom
    | apply respects_broadcastPresence
    | apply respects_modify_rooms
    | apply respects_modify_typingUsers
    | apply respects_modify_socket; by intros []
    | by apply respects_quiet
    | apply respects_bind; [|intros ?]
    | match goal with
      | |- respects_readyState (if ?b then _ else _) => destruct b
      | |- respects_readyState (match ?x with _ => _ end) => destruct x
      end ].

Lemma respects_requireFields ws data fields :
  respects_readyState (requireFields ws data fields).
Proof. unfold requireFields. cbn zeta. respects_steps. Qed.

Lemma respects_joinRoom ws room : respects_readyState (joinRoom ws room).
Proof. unfold joinRoom. respects_steps. Qed.

Lemma respects_leaveRoom ws room : respects_readyState (leaveRoom ws room).
Proof. unfold leaveRoom. respects_steps. Qed.

Lemma respects_handlers key h ws data now :
  messageHandlers.own key = Some h → respects_readyState (h ws data now).
Proof.
  intros H. apply own_handlers in H as [->|[->|[->|[->|[->| ->]]]]].
  - unfold messageHandlers.join. apply respects_bind; [apply respects_requireFields|].
    intros []; [|by apply respects_quiet].
    apply respects_bind; [apply respects_modify_socket; by intros []|intros _].
    apply respects_joinRoom.
  - unfold messageHandlers.leave. apply respects_bind; [apply respects_requireFields|].
    intros []; [|by apply respects_quiet]. apply respects_leaveRoom.
  - unfold messageHandlers.message. apply respects_bind; [apply respects_requireFields|].
    intros ok. respects_steps.
  - unfold messageHandlers.reaction. apply respects_bind; [apply respects_requireFields|].
    intros ok. respects_steps.
  - unfold messageHandlers.presence_request.
    apply respects_bind; [apply respects_requireFields|]. intros ok. respects_steps.
  - intros w. rewrite typing_eq. cbn zeta.
    destruct (complete _ _).
    + destruct (named _); [|by apply (respects_quiet (λ w, Outcome (Normal ()) w []))].
      destruct (JS.Set_has _ _);
        [|by apply (respects_quiet (λ w, Outcome (Normal ()) w []))].
      destruct (_ && _); cbn [final sent]; split; try done.
      * by intros d ?%not_elem_of_nil.
      * intros d. apply fanout_open.
    + cbn [final sent]. split; [done|]. unfold complaint. intros d.
      pose proof (proj2 (respects_send ws
        (Event.error ("Missing or invalid fields: "
                      +:+ JS.join ", " (missing data ["room"]))) w) d) as H.
      rewrite send_eq in H. exact H.
Qed.

Lemma respects_on_message ws msg now : respects_readyState (on_message ws msg now).
Proof.
  unfold on_message. cbn zeta.
  destruct (negb _); [apply respects_send|].
  destruct (messageHandlers.own _) as [h|] eqn:E; [by eapply respects_handlers|].
  destruct (JS.inherited _); [|apply respects_send].
  unfold messageHandlers.call_inherited. destruct (_ || _); by apply respects_quiet.
Qed.

Lemma respects_on_close ws : respects_readyState (on_close ws).
Proof.
  unfold on_close. apply respects_bind; [by apply respects_quiet|intros w].
  apply respects_for_each. intros room. apply respects_leaveRoom.
Qed.

(** ** Broadcasts *)

(** X1: [broadcastToRoom] hands the payload to exactly the members of the
    room whose socket is open, the excluded socket left out; it changes
    nothing and never throws.  A room without an entry has no members, so
    nobody is told. *)
Theorem broadcastToRoom_recipients room data excludeWs w :
  result (broadcastToRoom room data excludeWs w) = Normal ()
  ∧ final (broadcastToRoom room data excludeWs w) = w
  ∧ (∀ c p, (c, p) ∈ sent (broadcastToRoom room data excludeWs w) ↔
            p = data ∧ c ∈ members w room
            ∧ readyState_OPEN (socket w c) = true ∧ excludeWs ≠ Some c)
  ∧ (rooms w !! room = None → sent (broadcastToRoom room data excludeWs w) = []).
Proof.
  rewrite broadcastToRoom_eq. cbn [result final sent].
  split; [done|]. split; [done|]. split.
  - intros c p. unfold fanout, audience. rewrite list_elem_of_fmap. split.
    + intros (c' & [= -> ->] & Hc).
      apply list_elem_of_In, filter_In in Hc as [Hm Hc].
      apply andb_true_iff in Hc as [Ho Hx].
      apply negb_true_iff, bool_decide_eq_false in Hx.
      by rewrite list_elem_of_In.
    + intros (-> & Hm & Ho & Hx). exists c. split; [done|].
      apply list_elem_of_In, filter_In. split; [by apply list_elem_of_In|].
      rewrite Ho. cbn. by apply negb_true_iff, bool_decide_eq_false.
  - intros H. unfold fanout, audience, members. by rewrite H.
Qed.

(** X2: in every reachable state the member set of a room, the room set
    of a socket and every typing set list each element once, so a
    broadcast tells no socket twice. *)
Theorem no_socket_is_told_twice w room data excludeWs c :
  reachable w →
  NoDup (members w room)
  ∧ NoDup (ws_rooms (socket w c))
  ∧ (∀ s, typingUsers w !! room = Some s → NoDup s)
  ∧ NoDup (sent (broadcastToRoom room data excludeWs w)).
Proof.
  intros (Hm & Hr & Ht)%sets_ok_reachable. repeat split; try done.
  - apply Ht.
  - rewrite broadcastToRoom_eq. cbn [sent]. unfold fanout, audience.
    apply NoDup_fmap_2; [by intros ?? [= ->]|].
    apply NoDup_ListNoDup, List.NoDup_filter, NoDup_ListNoDup, Hm.
Qed.

Lemma no_socket_is_told_twice_witness :
  NoDup (sent (broadcastToRoom "general" (Event.system "hello") None
                 (run initial
                    [Connection 1; Connection 2;
                     Incoming 1 (Scenario.join "general" "alice") 0;
                     Incoming 2 (Scenario.join "general" "bob") 0;
                     Incoming 1 (Scenario.join "general" "alice") 0]))).
Proof.
  apply (no_socket_is_told_twice
           (run initial
              [Connection 1; Connection 2;
               Incoming 1 (Scenario.join "general" "alice") 0;
               Incoming 2 (Scenario.join "general" "bob") 0;
               Incoming 1 (Scenario.join "general" "alice") 0])
           "general" (Event.system "hello") None 1).
  eexists. reflexivity.
Defined.

(** X3: in every reachable state each member of a room has a user name
    that is not blank, so the presence list that [broadcastPresence]
    computes names every member, in the order of the member set: its
    [filter(Boolean)] drops nobody. *)
Theorem presence_names_every_member w room :
  reachable w →
  (∀ c, c ∈ members w room →
        ∃ name, username (socket w c) = Some name ∧ JS.trims_to_empty name = false)
  ∧ Some <$> snapshot w room = (λ c, username (socket w c)) <$> members w room
  ∧ broadcastPresence room w = Outcome (Normal ()) w (presence_out w room).
Proof.
  intros Hw. destruct (reachable_Inv w Hw) as [_ Hm].
  destruct (names_ok_reachable w Hw) as [Hu _].
  assert (Hname : ∀ c, c ∈ members w room →
            ∃ name, username (socket w c) = Some name ∧ JS.trims_to_empty name = false).
  { intros c Hc. apply Hm in Hc. specialize (Hu c).
    destruct (username (socket w c)) as [name|]; [eauto|].
    rewrite Hu in Hc. by apply not_elem_of_nil in Hc. }
  split; [exact Hname|]. split; [|apply broadcastPresence_eq].
  unfold snapshot. induction (members w room) as [|c cs IH]; [done|].
  destruct (Hname c) as (name & Hn & Hb); [apply list_elem_of_here|].
  cbn. rewrite Hn. cbn.
  assert (String.eqb name "" = false) as ->.
  { destruct name; [done|]. done. }
  cbn. f_equal. apply IH. intros c' Hc'. apply Hname. by apply list_elem_of_further.
Qed.

Lemma presence_names_every_member_witness :
  Some <$> snapshot
             (run initial
                [Connection 1; Connection 2;
                 Incoming 1 (Scenario.join "general" "alice") 0;
                 Incoming 2 (Scenario.join "general" "bob") 0]) "general"
  = [Some "alice"; Some "bob"].
Proof.
  apply (presence_names_every_member
           (run initial
              [Connection 1; Connection 2;
               Incoming 1 (Scenario.join "general" "alice") 0;
               Incoming 2 (Scenario.join "general" "bob") 0]) "general").
  eexists. reflexivity.
Defined.

(** ** What a step never does *)

Lemma step_sends_to_open_sockets i w d :
  d ∈ sent (step i w) → readyState_OPEN (socket (final (step i w)) d.1) = true.
Proof.
  unfold step. rewrite bind_get. destruct i as [ws|ws msg now|ws|ws].
  - case_bool_decide; by intros ?%not_elem_of_nil.
  - case_bool_decide; [|by intros ?%not_elem_of_nil].
    destruct (respects_on_message ws msg now w) as [H1 H2].
    intros Hd. rewrite H1. by apply H2.
  - by intros ?%not_elem_of_nil.
  - case_bool_decide; [|by intros ?%not_elem_of_nil]. rewrite bind_modify.
    destruct (respects_on_close ws
                (with_sockets (alter (set_readyState_OPEN false) ws) w)) as [H1 H2].
    intros Hd. rewrite H1. by apply H2.
Qed.

Lemma close_sends_nothing_to_the_closed ws w d :
  d ∈ sent (step (Closed ws) w) → d.1 ≠ ws.
Proof.
  intros Hd Heq. pose proof (step_sends_to_open_sockets _ _ _ Hd) as H. revert H.
  unfold step. rewrite bind_get. case_bool_decide as Hreg.
  - rewrite bind_modify.
    rewrite (proj1 (respects_on_close ws
               (with_sockets (alter (set_readyState_OPEN false) ws) w))).
    rewrite socket_alter, Heq, decide_True, bool_decide_eq_true_2 by done. done.
  - cbn [final mret M_ret]. unfold socket. rewrite Heq.
    destruct (sockets w !! ws) eqn:E; [exfalso; eauto|]. done.
Qed.

(** X4: whatever the transport does, and in whatever state, the server
    hands it nothing for a socket whose [readyState] is not [OPEN]; a
    socket that is reported closed gets nothing during its own close. *)
Theorem nothing_is_written_to_a_closed_socket i w :
  (∀ d, d ∈ sent (step i w) →
        readyState_OPEN (socket (final (step i w)) d.1) = true)
  ∧ (∀ ws d, i = Closed ws → d ∈ sent (step i w) → d.1 ≠ ws).
Proof.
  split; [apply step_sends_to_open_sockets|].
  intros ws d ->. apply close_sends_nothing_to_the_closed.
Qed.

(** X5: a socket that has a user name keeps having one: no frame, close
    or disconnect sets [ws.username] back to [null]. *)
Theorem username_is_never_unset inputs w c :
  is_Some (username (socket w c)) → is_Some (username (socket (run w inputs) c)).
Proof.
  revert w. apply (run_keeps (λ w, is_Some (username (socket w c)))).
  - intros ws w Hnew. rewrite socket_insert. case_decide; [subst c|done].
    unfold socket. rewrite Hnew. by intros [? ?].
  - intros ws b w. rewrite socket_alter. case_decide; [|done]. by case_bool_decide.
  - intros ws room name w Hreg _. rewrite socket_join_handled by done.
    case_decide; [by eexists|done].
  - intros ws room w. rewrite socket_leave_membership. by case_decide.
  - intros ws room w. by rewrite socket_leave_typing.
  - done.
Qed.

Lemma username_is_never_unset_witness :
  is_Some (username
             (socket
                (run (run initial [Connection 1;
                                   Incoming 1 (Scenario.join "general" "alice") 0])
                     [Incoming 1 (Scenario.leave "general") 0; Closed 1]) 1)).
Proof.
  apply (username_is_never_unset
           [Incoming 1 (Scenario.leave "general") 0; Closed 1]
           (run initial [Connection 1; Incoming 1 (Scenario.join "general" "alice") 0])
           1).
  eexists. reflexivity.
Defined.

(** ** Joining and leaving compose *)

Lemma world_eq w w' :
  rooms w = rooms w' → typingUsers w = typingUsers w' → sockets w = sockets w' →
  w = w'.
Proof. destruct w, w'. cbn. by intros -> -> ->. Qed.

Lemma sockets_join_world ws room w :
  sockets (join_world ws room w) = alter (set_ws_rooms (JS.Set_add room)) ws (sockets w)
  ∧ typingUsers (join_world ws room w) = typingUsers w.
Proof. unfold join_world. cbn. by case_bool_decide. Qed.

Lemma socket_join_world ws room w c :
  is_Some (sockets w !! ws) →
  socket (join_world ws room w) c =
  if decide (c = ws)
  then set_ws_rooms (JS.Set_add room) (socket w c)
  else socket w c.
Proof.
  intros [s Hs]. unfold socket. rewrite (proj1 (sockets_join_world ws room w)).
  case_decide; [subst c|by rewrite lookup_alter_ne].
  by rewrite lookup_alter_eq, Hs.
Qed.

Lemma username_join_world ws room w c :
  username (socket (join_world ws room w) c) = username (socket w c).
Proof.
  unfold socket. rewrite (proj1 (sockets_join_world ws room w)).
  destruct (decide (c = ws)) as [->|Hc]; [|by rewrite lookup_alter_ne].
  rewrite lookup_alter_eq. by destruct (sockets w !! ws).
Qed.

(** X6: [joinRoom] is an idempotent insert: joining a room a second time
    leaves the state exactly as the first join left it (the second join is
    announced again all the same). *)
Theorem joinRoom_twice_is_joinRoom_once ws room w :
  final (joinRoom ws room (final (joinRoom ws room w))) = final (joinRoom ws room w).
Proof.
  rewrite !joinRoom_final. apply world_eq.
  - apply map_eq. intros r. rewrite !rooms_join_world. case_decide; [|done].
    rewrite members_join_world, decide_True by done. by rewrite Set_add_idemp.
  - by rewrite !(proj2 (sockets_join_world _ _ _)).
  - rewrite !(proj1 (sockets_join_world _ _ _)). apply map_eq. intros c.
    destruct (decide (c = ws)) as [->|Hc]; [|by rewrite !lookup_alter_ne].
    rewrite !lookup_alter_eq. destruct (sockets w !! ws) as [[o u rs]|]; [|done].
    cbn. unfold set_ws_rooms. cbn. by rewrite Set_add_idemp.
Qed.

(** X7: in a reachable state, a socket that joins a room it was not in and
    then leaves it puts the directory and every socket's room set back as
    they were: a room created by the join is deleted by the leave. *)
Theorem join_then_leave_restores_membership ws room w :
  reachable w → is_Some (sockets w !! ws) → ws ∉ members w room →
  let w' := final (leaveRoom ws room (final (joinRoom ws room w))) in
  rooms w' = rooms w ∧ ∀ c, ws_rooms (socket w' c) = ws_rooms (socket w c).
Proof.
  intros Hw Hreg Hnot. cbn zeta. destruct (reachable_Inv w Hw) as [Hd Hm].
  rewrite joinRoom_final.
  pose proof (leaveRoom_same_membership ws room (join_world ws room w)) as Hsame.
  destruct (same_membership_views _ _ Hsame) as (Hsock & _).
  destruct Hsame as [-> _]. split.
  - apply map_eq. intros r. rewrite rooms_leave_membership, !rooms_join_world.
    case_decide as Hr; [subst r|done]. rewrite decide_True by done.
    rewrite Set_delete_add by done. unfold members in *.
    destruct (rooms w !! room) as [s|] eqn:E; cbn.
    + destruct (length s =? 0)%nat eqn:El; [|done].
      apply length_eqb_0 in El. by destruct (Hd room s E).
    + done.
  - intros c. rewrite Hsock, socket_leave_membership.
    case_decide as Hc; [subst c|]; rewrite socket_join_world by done.
    + rewrite decide_True by done. cbn. apply Set_delete_add. by rewrite <- (Hm ws).
    + by rewrite decide_False.
Qed.

Lemma join_then_leave_restores_membership_witness :
  rooms (final (leaveRoom 2 "lobby"
                  (final (joinRoom 2 "lobby"
                            (run initial
                               [Connection 1; Connection 2;
                                Incoming 1 (Scenario.join "general" "alice") 0])))))
  = rooms (run initial
             [Connection 1; Connection 2;
              Incoming 1 (Scenario.join "general" "alice") 0]).
Proof.
  apply (join_then_leave_restores_membership 2 "lobby"
           (run initial
              [Connection 1; Connection 2;
               Incoming 1 (Scenario.join "general" "alice") 0])).
  - eexists. reflexivity.
  - apply (bool_decide_unpack _). vm_compute. exact I.
  - apply (bool_decide_unpack _). vm_compute. exact I.
Defined.

(** X8: [joinRoom] puts the socket in the member set of the room, then
    tells the other open members that the user joined, then confirms to
    the joiner, then sends the new presence list to every open member,
    the joiner included; it never throws. *)
Theorem joinRoom_effects_in_order ws room w :
  let w' := final (joinRoom ws room w) in
  joinRoom ws room w =
    Outcome (Normal ()) w'
      (fanout w' room (Event.user_joined room (username (socket w ws))) (Some ws)
       ++ reply_to w' ws (Event.system ("Joined room: " +:+ room))
       ++ presence_out w' room)
  ∧ members w' room = JS.Set_add ws (members w room)
  ∧ ws ∈ members w' room
  ∧ (is_Some (sockets w !! ws) → room ∈ ws_rooms (socket w' ws)).
Proof.
  cbn zeta. rewrite joinRoom_final. split; [|split; [|split]].
  - unfold joinRoom. rewrite bind_get.
    assert (Hrest : ∀ w0,
      (modify (with_rooms (alter (JS.Set_add ws) room)) ≫= λ _ : (),
       modify (with_sockets (alter (set_ws_rooms (JS.Set_add room)) ws));;
       w ← get_world;
       broadcastToRoom room (Event.user_joined room (username (socket w ws))) (Some ws);;
       send ws (Event.system ("Joined room: " +:+ room));;
       broadcastPresence room) w0 =
      let w' := with_sockets (alter (set_ws_rooms (JS.Set_add room)) ws)
                  (with_rooms (alter (JS.Set_add ws) room) w0) in
      Outcome (Normal ()) w'
        (fanout w' room (Event.user_joined room (username (socket w' ws))) (Some ws)
         ++ reply_to w' ws (Event.system ("Joined room: " +:+ room))
         ++ presence_out w' room)).
    { intros w0. rewrite !bind_modify, bind_get, bind_broadcastToRoom, bind_send,
        broadcastPresence_eq. unfold prepend. cbn [result final sent]. done. }
    pose proof (username_join_world ws room w ws) as Hu. unfold join_world in *.
    case_bool_decide.
    + rewrite bind_modify, Hrest. cbn zeta. by rewrite Hu.
    + rewrite bind_ret, Hrest. cbn zeta. by rewrite Hu.
  - rewrite members_join_world. by rewrite decide_True.
  - rewrite members_join_world, decide_True by done. apply elem_of_Set_add. by left.
  - intros Hreg. rewrite socket_join_world, decide_True by done. cbn.
    apply elem_of_Set_add. by left.
Qed.

(** ** The typing tracker *)

Lemma dispatch_typing ws data now w :
  JS.ToString_opt (JS.get data "type") = "typing" →
  on_message ws (Parsed data) now w = messageHandlers.typing ws data now w.
Proof.
  intros Hk.
  by destruct (dispatch_own ws data now w "typing" ["room"] eq_refl Hk) as (_ & -> & _).
Qed.

(** X9: a [typing] message with a valid room from a socket that has no
    user name, or that is not in the room, is ignored: nothing is sent,
    nothing changes and no error is reported. *)
Theorem typing_needs_name_and_membership ws data now w :
  JS.ToString_opt (JS.get data "type") = "typing" →
  complete data ["room"] = true →
  named (username (socket w ws)) = None
  ∨ JS.str (JS.get data "room") ∉ ws_rooms (socket w ws) →
  on_message ws (Parsed data) now w = Outcome (Normal ()) w [].
Proof.
  intros Hk Hc Hguard. rewrite dispatch_typing, typing_eq by done. cbn zeta.
  rewrite Hc. destruct (named _) as [name|]; [|done].
  destruct Hguard as [|Hnot]; [done|]. apply Set_has_false in Hnot. by rewrite Hnot.
Qed.

Lemma typing_needs_name_and_membership_witness :
  on_message 1 (Scenario.typing "general" true) 0 (run initial [Connection 1])
  = Outcome (Normal ()) (run initial [Connection 1]) [].
Proof.
  apply (typing_needs_name_and_membership 1
           (JObj [("type", JStr "typing"); ("room", JStr "general");
                  ("typing", JBool true)]) 0 (run initial [Connection 1])).
  - reflexivity.
  - reflexivity.
  - left. reflexivity.
Defined.

(** X10: a [typing] message from a named member of a room with an
    ordinary name sets the sender's name in the typing set of the room
    when [typing] is truthy and clears it otherwise, leaves the other names
    of the set, the directory and the sockets alone, and sends the new
    list to every open member of the room, the sender included. *)
Theorem typing_toggles_the_senders_name ws data now w name :
  let room := JS.str (JS.get data "room") in
  let on := JS.truthy_opt (JS.get data "typing") in
  let w' := final (on_message ws (Parsed data) now w) in
  JS.ToString_opt (JS.get data "type") = "typing" →
  complete data ["room"] = true →
  named (username (socket w ws)) = Some name →
  room ∈ ws_rooms (socket w ws) →
  JS.inherited room = false →
  on_message ws (Parsed data) now w =
    Outcome (Normal ()) w'
      (fanout w room (Event.typing room (default [] (typingUsers w' !! room))) None)
  ∧ rooms w' = rooms w ∧ sockets w' = sockets w
  ∧ (∀ r, r ≠ room → typingUsers w' !! r = typingUsers w !! r)
  ∧ (∀ n, n ∈ default [] (typingUsers w' !! room) ↔
          (n = name ∧ on = true)
          ∨ (n ≠ name ∧ n ∈ default [] (typingUsers w !! room))).
Proof.
  cbn zeta. intros Hk Hc Hn Hin Hi. apply Set_has_true in Hin.
  rewrite dispatch_typing, typing_eq by done. cbn zeta.
  rewrite Hc, Hn, Hin, Hi, andb_false_r. cbn [final].
  split; [done|]. split; [done|]. split; [done|]. split.
  - intros r Hr. rewrite typingUsers_typing_update. by rewrite decide_False.
  - intros n. rewrite typingUsers_typing_update, decide_True by done. cbn.
    destruct (JS.truthy_opt _).
    + rewrite elem_of_Set_add. destruct (decide (n = name)); intuition congruence.
    + rewrite elem_of_Set_delete. intuition congruence.
Qed.

Lemma typing_toggles_the_senders_name_witness :
  on_message 1 (Scenario.typing "general" true) 0
    (run initial [Connection 1; Incoming 1 (Scenario.join "general" "alice") 0])
  = Outcome (Normal ())
      (final (on_message 1 (Scenario.typing "general" true) 0
                (run initial [Connection 1;
                              Incoming 1 (Scenario.join "general" "alice") 0])))
      [(1, Event.typing "general" ["alice"])].
Proof.
  apply (typing_toggles_the_senders_name 1
           (JObj [("type", JStr "typing"); ("room", JStr "general");
                  ("typing", JBool true)]) 0
           (run initial [Connection 1; Incoming 1 (Scenario.join "general" "alice") 0])
           "alice").
  - reflexivity.
  - reflexivity.
  - reflexivity.
  - apply (bool_decide_unpack _). vm_compute. exact I.
  - reflexivity.
Defined.

(** ** What one frame can touch *)

Lemma on_message_final_cases ws msg now w :
  let room := JS.str (JS.get (parseJSON msg) "room") in
  let w' := final (on_message ws msg now w) in
  w' = w
  ∨ (∃ name, w' = join_handled ws room name w)
  ∨ w' = leave_membership ws room w
  ∨ w' = leave_typing ws room (leave_membership ws room w)
  ∨ (∃ name on, w' = typing_update room name on w).
Proof.
  cbn zeta.
  destruct (JS.truthy (parseJSON msg)) eqn:Ht; [|rewrite on_message_falsy by done; auto].
  destruct msg as [data|]; [|done]. cbn [parseJSON] in *.
  rewrite on_message_dispatch by done. cbn zeta.
  destruct (messageHandlers.own _) as [h|] eqn:Eh.
  - apply own_handlers in Eh as [->|[->|[->|[->|[->| ->]]]]].
    + destruct (complete data ["room"; "sender"]) eqn:Ec.
      * rewrite join_final by done. right; left. by eexists.
      * rewrite join_incomplete by done. auto.
    + rewrite leave_eq. destruct (complete _ _); [|auto].
      destruct (leaveRoom_final_cases ws (JS.str (JS.get data "room")) w) as [-> | ->];
        auto.
    + rewrite message_eq. auto.
    + rewrite reaction_eq. auto.
    + rewrite presence_request_eq. auto.
    + rewrite typing_eq. cbn zeta. destruct (complete _ _); [|auto].
      destruct (named _) as [name|]; [|auto].
      destruct (JS.Set_has _ _); [|auto].
      destruct (_ && _); [auto|]. cbn [final]. do 4 right. by do 2 eexists.
  - destruct (JS.inherited _); [rewrite call_inherited_final|]; auto.
Qed.

Lemma rooms_join_handled ws room name w r :
  rooms (join_handled ws room name w) !! r =
  if decide (r = room) then Some (JS.Set_add ws (members w room)) else rooms w !! r.
Proof. unfold join_handled. by rewrite rooms_join_world. Qed.

Lemma socket_if_with_rooms (b : bool) f w c :
  socket (if b then with_rooms f w else w) c = socket w c.
Proof. by destruct b. Qed.

Lemma sockets_if_with_rooms (b : bool) f w :
  sockets (if b then with_rooms f w else w) = sockets w.
Proof. by destruct b. Qed.

Lemma socket_join_handled_other ws room name w c :
  c ≠ ws → socket (join_handled ws room name w) c = socket w c.
Proof.
  intros Hc. unfold join_handled, join_world.
  rewrite socket_alter, decide_False, socket_with_rooms by done.
  by rewrite socket_if_with_rooms, socket_alter, decide_False.
Qed.

Lemma readyState_join_handled ws room name w c :
  readyState_OPEN (socket (join_handled ws room name w) c) = readyState_OPEN (socket w c).
Proof.
  unfold join_handled, join_world.
  rewrite socket_alter, socket_with_rooms, socket_if_with_rooms, socket_alter.
  cbn [sockets with_rooms]. rewrite sockets_if_with_rooms.
  case_decide; [|done]. by repeat case_bool_decide.
Qed.

(** X11: one frame touches one room and one socket: whatever it holds, the
    directory entry and the typing set of every room other than the one it
    names stay as they are, and so do the fields of every socket other
    than the sender's and the [readyState] of all. *)
Theorem a_frame_touches_one_room_and_one_socket ws msg now w :
  let room := JS.str (JS.get (parseJSON msg) "room") in
  let w' := final (on_message ws msg now w) in
  (∀ r, r ≠ room →
        rooms w' !! r = rooms w !! r ∧ typingUsers w' !! r = typingUsers w !! r)
  ∧ (∀ c, c ≠ ws → socket w' c = socket w c)
  ∧ (∀ c, readyState_OPEN (socket w' c) = readyState_OPEN (socket w c)).
Proof.
  cbn zeta.
  destruct (on_message_final_cases ws msg now w)
    as [-> | [[name ->] | [-> | [-> | (name & on & ->)]]]]; [done|..].
  - split; [|split].
    + intros r Hr. rewrite rooms_join_handled, typingUsers_join_handled.
      by rewrite decide_False.
    + intros c Hc. by apply socket_join_handled_other.
    + intros c. apply readyState_join_handled.
  - split; [|split].
    + intros r Hr. rewrite rooms_leave_membership, leave_membership_typingUsers.
      by rewrite decide_False.
    + intros c Hc. rewrite socket_leave_membership. by rewrite decide_False.
    + intros c. rewrite socket_leave_membership. by case_decide.
  - split; [|split].
    + intros r Hr. rewrite typingUsers_leave_typing, decide_False by done.
      rewrite leave_membership_typingUsers.
      destruct (leave_typing_same_membership ws
                  (JS.str (JS.get (parseJSON msg) "room"))
                  (leave_membership ws (JS.str (JS.get (parseJSON msg) "room")) w))
        as [-> _].
      rewrite rooms_leave_membership. by rewrite decide_False.
    + intros c Hc. rewrite socket_leave_typing, socket_leave_membership.
      by rewrite decide_False.
    + intros c. rewrite socket_leave_typing, socket_leave_membership. by case_decide.
  - split; [|split]; [|done..].
    intros r Hr. rewrite typingUsers_typing_update. by rewrite decide_False.
Qed.

(** ** Reactions and presence requests *)

(** X12: in a reachable state, a [reaction] with valid fields from a
    member of the room goes to every open member of the room, the sender
    included when its socket is open, with the sender's name, the target
    and the emoji; its timestamp is the client's when that is truthy and
    the clock reading otherwise.  Nothing changes. *)
Theorem reaction_reaches_the_room ws data now w :
  let room := JS.str (JS.get data "room") in
  let event :=
    Event.reaction room (username (socket w ws))
      (JS.str (JS.get data "target")) (JS.str (JS.get data "emoji"))
      (match JS.get data "timestamp" with
       | Some ts => if JS.truthy ts then ts else JNum now
       | None => JNum now
       end) in
  reachable w →
  JS.ToString_opt (JS.get data "type") = "reaction" →
  complete data ["room"; "target"; "emoji"] = true →
  ws ∈ members w room →
  on_message ws (Parsed data) now w = Outcome (Normal ()) w (fanout w room event None)
  ∧ (readyState_OPEN (socket w ws) = true → (ws, event) ∈ fanout w room event None).
Proof.
  cbn zeta. intros Hw Hk Hc Hin. destruct (reachable_Inv w Hw) as [_ Hm].
  split.
  - destruct (dispatch_own ws data now w "reaction" ["room"; "target"; "emoji"]
                eq_refl Hk) as (_ & -> & _).
    cbn [messageHandlers.own String.eqb Ascii.eqb Bool.eqb].
    rewrite reaction_eq, Hc. cbn zeta.
    rewrite (Hm ws) in Hin. apply Set_has_true in Hin. by rewrite Hin.
  - intros Ho. unfold fanout, audience. apply list_elem_of_fmap. exists ws.
    split; [done|]. apply list_elem_of_In, filter_In.
    split; [by apply list_elem_of_In|]. by rewrite Ho.
Qed.

Lemma reaction_reaches_the_room_witness :
  on_message 1
    (Parsed (JObj [("type", JStr "reaction"); ("room", JStr "general");
                   ("target", JStr "m1"); ("emoji", JStr ":)")])) 7
    (run initial [Connection 1; Incoming 1 (Scenario.join "general" "alice") 0])
  = Outcome (Normal ())
      (run initial [Connection 1; Incoming 1 (Scenario.join "general" "alice") 0])
      [(1, Event.reaction "general" (Some "alice") "m1" ":)" (JNum 7))].
Proof.
  apply (reaction_reaches_the_room 1
           (JObj [("type", JStr "reaction"); ("room", JStr "general");
                  ("target", JStr "m1"); ("emoji", JStr ":)")]) 7
           (run initial [Connection 1; Incoming 1 (Scenario.join "general" "alice") 0])).
  - eexists. reflexivity.
  - reflexivity.
  - reflexivity.
  - apply (bool_decide_unpack _). vm_compute. exact I.
Defined.

(** X13: in a reachable state, a [presence_request] from a member of the
    room sends the presence list of the room to every open member and
    changes nothing. *)
Theorem presence_request_refreshes_the_room ws data now w :
  let room := JS.str (JS.get data "room") in
  reachable w →
  JS.ToString_opt (JS.get data "type") = "presence_request" →
  complete data ["room"] = true →
  ws ∈ members w room →
  on_message ws (Parsed data) now w =
  Outcome (Normal ()) w (fanout w room (Event.presence room (snapshot w room)) None).
Proof.
  cbn zeta. intros Hw Hk Hc Hin. destruct (reachable_Inv w Hw) as [_ Hm].
  destruct (dispatch_own ws data now w "presence_request" ["room"] eq_refl Hk)
    as (_ & -> & _).
  cbn [messageHandlers.own String.eqb Ascii.eqb Bool.eqb].
  rewrite presence_request_eq, Hc. cbn zeta.
  pose proof Hin as Hin'. rewrite (Hm ws) in Hin'. apply Set_has_true in Hin'.
  rewrite Hin'. unfold presence_out. rewrite bool_decide_eq_true_2; [done|].
  unfold members in Hin. destruct (rooms w !! _); [by eexists|].
  by apply not_elem_of_nil in Hin.
Qed.

Lemma presence_request_refreshes_the_room_witness :
  on_message 1
    (Parsed (JObj [("type", JStr "presence_request"); ("room", JStr "general")])) 0
    (run initial [Connection 1; Incoming 1 (Scenario.join "general" "alice") 0])
  = Outcome (Normal ())
      (run initial [Connection 1; Incoming 1 (Scenario.join "general" "alice") 0])
      [(1, Event.presence "general" ["alice"])].
Proof.
  apply (presence_request_refreshes_the_room 1
           (JObj [("type", JStr "presence_request"); ("room", JStr "general")]) 0
           (run initial [Connection 1; Incoming 1 (Scenario.join "general" "alice") 0])).
  - eexists. reflexivity.
  - reflexivity.
  - reflexivity.
  - apply (bool_decide_unpack _). vm_compute. exact I.
Defined.

(** ** Disconnects *)

Lemma bind_Throw {A B} (m : M A) (f : A → M B) w e w' o :
  m w = Outcome (Throw e) w' o → (m ≫= f) w = Outcome (Throw e) w' o.
Proof. intros H. unfold mbind, M_bind. rewrite H. reflexivity. Qed.

Lemma leaveRoom_returns ws room w :
  JS.inherited room = false →
  ∃ o, leaveRoom ws room w =
       Outcome (Normal ()) (leave_typing ws room (leave_membership ws room w)) o.
Proof.
  intros Hi. rewrite leaveRoom_eq. cbn zeta. unfold typingUsers_get at 1.
  rewrite Hi. destruct (typingUsers _ !! room); by eexists.
Qed.

Lemma leaveRoom_throws ws room w :
  JS.inherited room = true → typingUsers w !! room = None →
  leaveRoom ws room w = Outcome (Throw TypeError) (leave_membership ws room w) [].
Proof.
  intros Hi Hn. rewrite leaveRoom_eq. cbn zeta. unfold typingUsers_get at 1.
  by rewrite leave_membership_typingUsers, Hn, Hi.
Qed.

Lemma ws_rooms_after_leave ws room w c :
  ws_rooms (socket (leave_typing ws room (leave_membership ws room w)) c) =
  if decide (c = ws) then JS.Set_delete room (ws_rooms (socket w c))
  else ws_rooms (socket w c).
Proof. rewrite socket_leave_typing, socket_leave_membership. by case_decide. Qed.

Lemma filter_after_Set_delete (r : string) (l rs : list string) :
  filter (λ x, x ∉ l) (JS.Set_delete r rs) = filter (λ x, x ∉ r :: l) rs.
Proof.
  unfold JS.Set_delete. induction rs as [|x rs IH]; [done|].
  destruct (decide (x = r)) as [->|Hx].
  - rewrite filter_cons_False by (intros H; by apply H).
    rewrite (filter_cons_False (λ x, x ∉ r :: l)); [done|].
    intros H. apply H, list_elem_of_here.
  - rewrite filter_cons_True by done.
    destruct (decide (x ∈ l)) as [Hl|Hl].
    + rewrite filter_cons_False by (intros H; by apply H).
      rewrite (filter_cons_False (λ x, x ∉ r :: l)); [done|].
      intros H. apply H. by apply list_elem_of_further.
    + rewrite filter_cons_True by done.
      rewrite (filter_cons_True (λ x, x ∉ r :: l)); [by rewrite IH|].
      by intros [?|?]%elem_of_cons.
Qed.

Lemma for_each_leaveRoom ws (l : list string) w :
  (∀ r, r ∈ l → JS.inherited r = false) →
  result (for_each l (λ room, leaveRoom ws room) w) = Normal ()
  ∧ ∀ c, ws_rooms (socket (final (for_each l (λ room, leaveRoom ws room) w)) c) =
         if decide (c = ws) then filter (λ x, x ∉ l) (ws_rooms (socket w c))
         else ws_rooms (socket w c).
Proof.
  revert w. induction l as [|r l IH]; intros w Hl.
  - split; [done|]. intros c. cbn. case_decide; [|done].
    induction (ws_rooms (socket w c)) as [|x xs IHx]; [done|].
    rewrite filter_cons_True by apply not_elem_of_nil. by rewrite <- IHx.
  - destruct (leaveRoom_returns ws r w) as [o Ho]; [apply Hl, list_elem_of_here|].
    cbn [for_each]. rewrite (bind_Normal _ _ _ _ _ _ Ho). unfold prepend.
    cbn [result final].
    destruct (IH (leave_typing ws r (leave_membership ws r w))) as [H1 H2].
    { intros r' Hr'. by apply Hl, list_elem_of_further. }
    split; [done|]. intros c. rewrite H2, ws_rooms_after_leave.
    case_decide; [|done]. apply filter_after_Set_delete.
Qed.

Lemma filter_out_all (l : list string) : filter (λ x, x ∉ l) l = [].
Proof.
  assert (H : ∀ rs, (∀ x, x ∈ rs → x ∈ l) → filter (λ x, x ∉ l) rs = []).
  { induction rs as [|x rs IH]; [done|]. intros Hin.
    rewrite filter_cons_False.
    - apply IH. intros y Hy. by apply Hin, list_elem_of_further.
    - intros Hx. apply Hx, Hin, list_elem_of_here. }
  by apply H.
Qed.

(** X14: in a reachable state, when a socket whose rooms all have ordinary
    names is reported closed, the listener returns normally and has taken
    the socket out of every room: its room set is empty, no member set
    holds it, the room sets of the other sockets are as before, and the
    closed socket itself was sent nothing. *)
Theorem close_leaves_every_room ws w :
  reachable w →
  is_Some (sockets w !! ws) →
  Forall (λ r, JS.inherited r = false) (ws_rooms (socket w ws)) →
  let o := step (Closed ws) w in
  result o = Normal ()
  ∧ ws_rooms (socket (final o) ws) = []
  ∧ (∀ room, ws ∉ members (final o) room)
  ∧ (∀ c, c ≠ ws → ws_rooms (socket (final o) c) = ws_rooms (socket w c))
  ∧ (∀ d, d ∈ sent o → d.1 ≠ ws).
Proof.
  intros Hw Hreg Hord. cbn zeta. rewrite Forall_forall in Hord.
  pose proof (step_Inv (Closed ws) w (reachable_Inv w Hw)) as [_ Hm].
  pose proof (close_sends_nothing_to_the_closed ws w) as Hquiet.
  revert Hm Hquiet. unfold step. rewrite bind_get, bool_decide_eq_true_2 by done.
  rewrite bind_modify. unfold on_close. rewrite bind_get.
  set (w1 := with_sockets (alter (set_readyState_OPEN false) ws) w).
  assert (Hrs : ∀ c, ws_rooms (socket w1 c) = ws_rooms (socket w c)).
  { intros c. unfold w1. rewrite socket_alter. case_decide; [|done].
    by case_bool_decide. }
  rewrite Hrs. intros Hm Hquiet.
  destruct (for_each_leaveRoom ws (ws_rooms (socket w ws)) w1 Hord) as [H1 H2].
  assert (Hempty : ws_rooms
            (socket (final (for_each (ws_rooms (socket w ws))
                              (λ room, leaveRoom ws room) w1)) ws) = []).
  { rewrite H2, decide_True, Hrs by done. apply filter_out_all. }
  split; [done|]. split; [done|]. split; [|split].
  - intros room Hin. apply Hm in Hin. rewrite Hempty in Hin.
    by apply not_elem_of_nil in Hin.
  - intros c Hc. by rewrite H2, decide_False, Hrs.
  - intros d Hd. by apply Hquiet.
Qed.

Lemma close_leaves_every_room_witness :
  result (step (Closed 1)
            (run initial
               [Connection 1; Connection 2;
                Incoming 1 (Scenario.join "general" "alice") 0;
                Incoming 1 (Scenario.join "lobby" "alice") 0;
                Incoming 2 (Scenario.join "general" "bob") 0]))
  = Normal ().
Proof.
  apply (close_leaves_every_room 1
           (run initial
              [Connection 1; Connection 2;
               Incoming 1 (Scenario.join "general" "alice") 0;
               Incoming 1 (Scenario.join "lobby" "alice") 0;
               Incoming 2 (Scenario.join "general" "bob") 0])).
  - eexists. reflexivity.
  - apply (bool_decide_unpack _). vm_compute. exact I.
  - apply (bool_decide_unpack _). vm_compute. exact I.
Defined.

(** X15: in a reachable state, when a socket is reported closed and the
    first room of its room set is named like a member of
    [Object.prototype], the listener throws in that room and the loop
    stops there: the closed socket stays a member of all its other
    rooms. *)
Theorem close_stops_at_an_inherited_room_name ws w r rest :
  reachable w →
  is_Some (sockets w !! ws) →
  ws_rooms (socket w ws) = r :: rest →
  JS.inherited r = true →
  let o := step (Closed ws) w in
  result o = Throw TypeError
  ∧ sent o = []
  ∧ readyState_OPEN (socket (final o) ws) = false
  ∧ ws_rooms (socket (final o) ws) = rest
  ∧ (∀ room, room ∈ rest → ws ∈ members (final o) room).
Proof.
  intros Hw Hreg Hrooms Hi. cbn zeta.
  pose proof (step_Inv (Closed ws) w (reachable_Inv w Hw)) as [_ Hm].
  destruct (sets_ok_reachable w Hw) as (_ & Hnd & _).
  pose proof (typing_keys_ok_reachable w Hw r Hi) as Hkey.
  revert Hm. unfold step. rewrite bind_get, bool_decide_eq_true_2 by done.
  rewrite bind_modify. unfold on_close. rewrite bind_get.
  set (w1 := with_sockets (alter (set_readyState_OPEN false) ws) w).
  assert (Hs1 : socket w1 ws = set_readyState_OPEN false (socket w ws)).
  { unfold w1. by rewrite socket_alter, decide_True, bool_decide_eq_true_2. }
  rewrite Hs1. cbn [ws_rooms set_readyState_OPEN]. rewrite Hrooms. cbn [for_each].
  rewrite (bind_Throw _ _ _ _ _ _ (leaveRoom_throws ws r w1 Hi Hkey)).
  cbn [result final sent]. intros Hm.
  assert (Hrest : ws_rooms (socket (leave_membership ws r w1) ws) = rest).
  { rewrite socket_leave_membership, decide_True, Hs1 by done.
    cbn [ws_rooms set_readyState_OPEN]. rewrite Hrooms.
    specialize (Hnd ws). rewrite Hrooms in Hnd. apply NoDup_cons in Hnd as [Hr _].
    unfold JS.Set_delete. rewrite filter_cons_False by (intros H; by apply H).
    by apply Set_delete_absent. }
  split; [done|]. split; [done|]. split; [|split; [done|]].
  - rewrite socket_leave_membership, decide_True, Hs1 by done. done.
  - intros room Hin. apply Hm. by rewrite Hrest.
Qed.

Lemma close_stops_at_an_inherited_room_name_witness :
  result (step (Closed 1)
            (run initial
               [Connection 1;
                Incoming 1 (Scenario.join "constructor" "alice") 0;
                Incoming 1 (Scenario.join "general" "alice") 0]))
  = Throw TypeError.
Proof.
  apply (close_stops_at_an_inherited_room_name 1
           (run initial
              [Connection 1;
               Incoming 1 (Scenario.join "constructor" "alice") 0;
               Incoming 1 (Scenario.join "general" "alice") 0])
           "constructor" ["general"]).
  - eexists. reflexivity.
  - apply (bool_decide_unpack _). vm_compute. exact I.
  - reflexivity.
  - reflexivity.
Defined.

(** ** Runs of the properties stated before *)

Lemma leaveRoom_effects_in_order_witness :
  members (final (leaveRoom 1 "general"
                    (run initial
                       [Connection 1; Connection 2;
                        Incoming 1 (Scenario.join "general" "alice") 0;
                        Incoming 2 (Scenario.join "general" "bob") 0]))) "general"
  = [2].
Proof.
  exact (proj1 (proj2 (leaveRoom_effects_in_order 1 "general"
                         (run initial
                            [Connection 1; Connection 2;
                             Incoming 1 (Scenario.join "general" "alice") 0;
                             Incoming 2 (Scenario.join "general" "bob") 0])
                         eq_refl))).
Defined.

Lemma nonmember_leave_keeps_membership_witness :
  rooms (final (leaveRoom 2 "general"
                  (run initial
                     [Connection 1; Connection 2;
                      Incoming 1 (Scenario.join "general" "alice") 0])))
  = rooms (run initial
             [Connection 1; Connection 2;
              Incoming 1 (Scenario.join "general" "alice") 0]).
Proof.
  apply (nonmember_leave_keeps_membership 2 "general"
           (run initial
              [Connection 1; Connection 2;
               Incoming 1 (Scenario.join "general" "alice") 0])).
  - eexists. reflexivity.
  - apply (bool_decide_unpack _). vm_compute. exact I.
Defined.


Lemma inherited_type_not_reported_witness :
  sent (on_message 1 (Parsed (JObj [("type", JStr "valueOf")])) 0
          (run initial [Connection 1]))
  = [].
Proof.
  apply (inherited_type_not_reported 1 (JObj [("type", JStr "valueOf")]) 0
           (run initial [Connection 1])); reflexivity.
Defined.
